(** * Status polling, back-off and upload hand-off of the document frontend

    A shallow embedding of the client-side job-status logic of the
    legal-document application:

    - [frontend/src/utils/queueUtils.ts]       ([QueueUtils])
    - [frontend/src/utils/usagestatsUtils.ts]  ([UsageStatsUtils])
    - [frontend/src/hooks/useProcessingPoller.ts] ([ProcessingPoller])
    - [frontend/src/hooks/useFileUpload.ts]    ([FileUpload])
    - [frontend/src/components/processing-queue/ProcessingQueue.tsx]
      ([ProcessingQueue])

    The code is asynchronous JavaScript.  Every [async] function is cut at
    its [await]: the part before it issues the request, the part after it
    is a function of the reply.  The browser (timers firing, requests
    settling, the user clicking) is an explicit list of events, and the
    module-level and closure-level variables of the source are fields of
    explicit state records.

    JavaScript numbers that hold delays are rationals ([Q]).  The only
    non-integer operation of the source is the factor [1.5]; it is guarded
    by [attempts < 3], so a run applies it at most three times and every
    delay is a whole number of eighths of a millisecond, on which the
    doubles of JavaScript are exact.  Counters are integers ([Z]).
    Strings are sequences of bytes; [toLowerCase] acts on the ASCII
    letters, which is all that the case labels of the source can observe.

    A React component is modelled from its first render to its unmount;
    setters called on an unmounted component are outside the model. *)

From Stdlib Require Import QArith Qminmax Lqa ZArith Lia.
From stdpp Require Import gmap strings list fin_maps.

(** ** JavaScript idioms used by the source *)

Module Js.

Definition lower_ascii (c : Ascii.ascii) : Ascii.ascii :=
  let n := Ascii.nat_of_ascii c in
  if ((65 <=? n) && (n <=? 90))%nat then Ascii.ascii_of_nat (n + 32) else c.

(** [s.toLowerCase()] *)
Fixpoint toLowerCase (s : string) : string :=
  match s with
  | EmptyString => EmptyString
  | String c s' => String (lower_ascii c) (toLowerCase s')
  end.

(** A value that is a string or [undefined]/[null]. *)
Definition value := option string.

(** [!!x] : [undefined] and the empty string are falsy. *)
Definition truthy (x : value) : bool :=
  match x with
  | Some s => negb (String.eqb s "")
  | None => false
  end.

(** [a || b] *)
Definition or (a b : value) : value := if truthy a then a else b.

(** [`${x}`] : a template literal prints [undefined] by name. *)
Definition template (x : value) : string := default "undefined" x.

(** One group of [case] labels of a [switch (status)]: strict equality
    with one of the labels; [undefined] equals none of them. *)
Definition case_of (status : value) (labels : list string) : bool :=
  match status with
  | Some s => existsb (String.eqb s) labels
  | None => false
  end.

(** What [axios] rejects with: [error.response?.status]. *)
Definition http_error := option Z.

Inductive toast :=
| ToastSuccess (msg : string)
| ToastError (msg : string).

End Js.

(** ** utils/queueUtils.ts *)

Module QueueUtils.
Import Js.

Inductive DocumentStatus := Uploaded | Processing | Completed | Failed.

#[global] Instance DocumentStatus_eq_dec : EqDecision DocumentStatus.
Proof. solve_decision. Defined.

(** The string literal each member of the union type stands for. *)
Definition literal (s : DocumentStatus) : string :=
  match s with
  | Uploaded => "Uploaded"
  | Processing => "Processing"
  | Completed => "Completed"
  | Failed => "Failed"
  end.

Record QueueDocument := {
  id : value;
  name : string;
  status : DocumentStatus;
  uploadedAt : value;
  file_type : value;
}.

Definition uploaded_labels : list string := ["uploaded"; "pending"].
Definition processing_labels : list string :=
  ["processing"; "in_progress"; "analyzing"].
Definition completed_labels : list string :=
  ["completed"; "done"; "success"; "ready"].
Definition failed_labels : list string :=
  ["failed"; "error"; "cancelled"; "canceled"].

Definition mapApiStatusToDisplayStatus (apiStatus : value) : DocumentStatus :=
  let status := toLowerCase <$> apiStatus in
  if case_of status uploaded_labels then Uploaded
  else if case_of status processing_labels then Processing
  else if case_of status completed_labels then Completed
  else if case_of status failed_labels then Failed
  else Uploaded.

(** A document as the API sends it: the fields [fetchDocuments] reads. *)
Record ApiDocument := {
  api_id : value; api_document_id : value; api__id : value;
  api_name : value; api_filename : value; api_title : value;
  api_status : value; api_processing_status : value; api_state : value;
  api_created_at : value; api_uploaded_at : value; api_createdAt : value;
  api_upload_date : value;
  api_file_type : value;
}.

(** [response.data] of a resolved request. *)
Inductive body :=
| Wrapped (data : list ApiDocument)   (* { data: [...] } *)
| Bare (docs : list ApiDocument)      (* [...] *)
| Unexpected.

Inductive reply :=
| Resolved (b : body)
| Rejected (status : http_error).

Definition format (doc : ApiDocument) : QueueDocument :=
  {| id := or (or (api_id doc) (api_document_id doc)) (api__id doc);
     name := default "Unknown Document"
               (or (or (or (api_name doc) (api_filename doc)) (api_title doc))
                   (Some "Unknown Document"));
     status := mapApiStatusToDisplayStatus
                 (or (or (api_status doc) (api_processing_status doc))
                     (api_state doc));
     uploadedAt := or (or (or (api_created_at doc) (api_uploaded_at doc))
                          (api_createdAt doc)) (api_upload_date doc);
     file_type := api_file_type doc |}.

(** What the promise of [fetchDocuments] settles with. *)
Inductive outcome :=
| Returned (docs : list QueueDocument)
| Thrown (status : http_error).

(** [fetchDocuments(token)] from the reply of its [axios.get] on; the
    toasts it shows are appended to [toasts]. *)
Definition fetchDocuments_settle (r : reply) (toasts : list toast)
  : outcome * list toast :=
  match r with
  | Resolved b =>
      let docs := match b with
                  | Wrapped data => data
                  | Bare docs => docs
                  | Unexpected => []
                  end in
      (Returned (format <$> docs), toasts)
  | Rejected st =>
      let toasts :=
        if bool_decide (st = Some 401%Z) then
          toasts ++ [ToastError "Authentication expired. Please log in again."]
        else if bool_decide (st ≠ Some 429%Z) then
          toasts ++ [ToastError "Failed to load documents. Please try again."]
        else toasts in
      (Thrown st, toasts)
  end.

(** [fetchDocuments(token)]: without a token no request is made and the
    empty list is returned; [reply] is what the request settles with. *)
Definition fetchDocuments (token : value) (r : reply) (toasts : list toast)
  : outcome * list toast :=
  if negb (truthy token) then (Returned [], toasts)
  else fetchDocuments_settle r toasts.

End QueueUtils.

(** ** utils/usagestatsUtils.ts *)

Module UsageStatsUtils.
Import Js.

Definition completed_labels : list string :=
  ["completed"; "complete"; "done"; "finished"; "processed"; "ready";
   "success"; "successful"].
Definition processing_labels : list string :=
  ["processing"; "in_progress"; "analyzing"].
Definition failed_labels : list string :=
  ["failed"; "error"; "cancelled"; "canceled"].
Definition uploaded_labels : list string := ["uploaded"; "pending"].

Definition mapApiStatusToDisplayStatus (apiStatus : value) : string :=
  let status := toLowerCase <$> apiStatus in
  if case_of status completed_labels then "Completed"
  else if case_of status processing_labels then "Processing"
  else if case_of status failed_labels then "Failed"
  else if case_of status uploaded_labels then "Uploaded"
  else "Other".

(** The status part of [fetchUsageStatistics].  [statusCounts] is a plain
    object used as a map from display status to count; it is kept as an
    association list in the order in which the keys were first written,
    which is the order [Object.entries] reads them in. *)

(** [statusCounts[status] = (statusCounts[status] || 0) + 1] *)
Fixpoint bump (status : string) (counts : list (string * nat))
  : list (string * nat) :=
  match counts with
  | [] => [(status, 1)]
  | (key, n) :: rest =>
      if String.eqb key status then (key, S n) :: rest
      else (key, n) :: bump status rest
  end.

(** The [forEach] over the documents, as far as the statuses go. *)
Definition statusCounts (documents : list QueueUtils.ApiDocument)
  : list (string * nat) :=
  foldl (λ counts doc,
           bump (mapApiStatusToDisplayStatus
                   (or (or (QueueUtils.api_status doc)
                           (QueueUtils.api_processing_status doc))
                       (QueueUtils.api_state doc)))
                counts)
        [] documents.

Definition statusColors : list (string * string) :=
  [("Completed", "#10B981"); ("Processing", "#3B82F6"); ("Failed", "#EF4444");
   ("Uploaded", "#F59E0B"); ("Other", "#6B7280")].

(** [statusColors[status]] *)
Fixpoint colorOf (status : string) (table : list (string * string)) : value :=
  match table with
  | [] => None
  | (key, color) :: rest =>
      if String.eqb key status then Some color else colorOf status rest
  end.

(** One slice of the status chart. *)
Record StatusSlice := { slice_name : string; slice_value : nat; slice_color : string }.

(** [statusChartData], the [statusData] of the result. *)
Definition statusData (documents : list QueueUtils.ApiDocument)
  : list StatusSlice :=
  (λ entry : string * nat,
     {| slice_name := entry.1; slice_value := entry.2;
        slice_color := default "#6B7280" (or (colorOf entry.1 statusColors)
                                             (Some "#6B7280")) |})
    <$> statusCounts documents.

End UsageStatsUtils.

(** ** hooks/useProcessingPoller.ts *)

Module ProcessingPoller.
Import Js.

Definition maxAttempts : Z := 60.
Definition maxDelay : Q := 30000.

(** [res.data.data], the status object of a document. *)
Record ProcessingStatus := { processing_status : value }.

(** What the [axios.get] of [checkStatus] settles with.  [Resolved None]
    is a reply without a status object: reading [processing_status] from
    it throws inside the [try]. *)
Inductive reply :=
| Resolved (data : option ProcessingStatus)
| Rejected (status : http_error).

Inductive resultType := success | error | processing.

Record UploadResult := { type : option resultType; message : string }.

(** The two kinds of function the module hands to [setTimeout]. *)
Inductive callback :=
| CheckStatus (rid : nat)           (* checkStatus of the run [rid] *)
| Navigate (path : string).         (* () => navigate(path) *)

#[global] Instance callback_eq_dec : EqDecision callback.
Proof. solve_decision. Defined.

Record timer := { callback_of : callback; delay_of : Q }.

(** The variables one call of [pollProcessingStatus] closes over.
    [awaiting] and [requests] are not in the source: they count the
    status requests of the run that are in flight, and all it has sent. *)
Record run := {
  documentId : string;
  taskId : string;
  attempts : Z;
  currentDelay : Q;
  timeoutId : option nat;
  awaiting : Z;
  requests : Z;
}.

(** The module-level registry, the runs created so far, the timers of
    the browser that have not fired, and the page state behind the
    setters and the [navigate] passed to [pollProcessingStatus]. *)
Record world := {
  activePolls : gset string;
  runs : list run;
  timers : gmap nat timer;
  nextTimer : nat;
  processingStatus : option ProcessingStatus;
  uploadResult : UploadResult;
  toasts : list toast;
  location : list string;
}.

Definition initial : world :=
  {| activePolls := ∅; runs := []; timers := ∅; nextTimer := 1;
     processingStatus := None;
     uploadResult := {| type := None; message := "" |};
     toasts := []; location := [] |}.

(** *** Assignments *)

Definition set_attempts (n : Z) (r : run) : run :=
  {| documentId := documentId r; taskId := taskId r; attempts := n;
     currentDelay := currentDelay r; timeoutId := timeoutId r;
     awaiting := awaiting r; requests := requests r |}.

Definition set_currentDelay (d : Q) (r : run) : run :=
  {| documentId := documentId r; taskId := taskId r; attempts := attempts r;
     currentDelay := d; timeoutId := timeoutId r;
     awaiting := awaiting r; requests := requests r |}.

Definition set_timeoutId (t : option nat) (r : run) : run :=
  {| documentId := documentId r; taskId := taskId r; attempts := attempts r;
     currentDelay := currentDelay r; timeoutId := t;
     awaiting := awaiting r; requests := requests r |}.

Definition sent (r : run) : run :=
  {| documentId := documentId r; taskId := taskId r; attempts := attempts r;
     currentDelay := currentDelay r; timeoutId := timeoutId r;
     awaiting := awaiting r + 1; requests := requests r + 1 |}.

Definition settled (r : run) : run :=
  {| documentId := documentId r; taskId := taskId r; attempts := attempts r;
     currentDelay := currentDelay r; timeoutId := timeoutId r;
     awaiting := awaiting r - 1; requests := requests r |}.

Definition set_activePolls (s : gset string) (w : world) : world :=
  {| activePolls := s; runs := runs w; timers := timers w;
     nextTimer := nextTimer w; processingStatus := processingStatus w;
     uploadResult := uploadResult w; toasts := toasts w;
     location := location w |}.

Definition set_runs (l : list run) (w : world) : world :=
  {| activePolls := activePolls w; runs := l; timers := timers w;
     nextTimer := nextTimer w; processingStatus := processingStatus w;
     uploadResult := uploadResult w; toasts := toasts w;
     location := location w |}.

Definition set_timers (m : gmap nat timer) (n : nat) (w : world) : world :=
  {| activePolls := activePolls w; runs := runs w; timers := m;
     nextTimer := n; processingStatus := processingStatus w;
     uploadResult := uploadResult w; toasts := toasts w;
     location := location w |}.

Definition setProcessingStatus (s : option ProcessingStatus) (w : world)
  : world :=
  {| activePolls := activePolls w; runs := runs w; timers := timers w;
     nextTimer := nextTimer w; processingStatus := s;
     uploadResult := uploadResult w; toasts := toasts w;
     location := location w |}.

Definition setUploadResult (u : UploadResult) (w : world) : world :=
  {| activePolls := activePolls w; runs := runs w; timers := timers w;
     nextTimer := nextTimer w; processingStatus := processingStatus w;
     uploadResult := u; toasts := toasts w; location := location w |}.

Definition show (t : toast) (w : world) : world :=
  {| activePolls := activePolls w; runs := runs w; timers := timers w;
     nextTimer := nextTimer w; processingStatus := processingStatus w;
     uploadResult := uploadResult w; toasts := toasts w ++ [t];
     location := location w |}.

Definition navigate (path : string) (w : world) : world :=
  {| activePolls := activePolls w; runs := runs w; timers := timers w;
     nextTimer := nextTimer w; processingStatus := processingStatus w;
     uploadResult := uploadResult w; toasts := toasts w;
     location := location w ++ [path] |}.

(** *** Browser timers: handles are fresh positive integers *)

Definition setTimeout (cb : callback) (ms : Q) (w : world) : nat * world :=
  let tid := nextTimer w in
  (tid, set_timers (<[tid := {| callback_of := cb; delay_of := ms |}]> (timers w))
                   (S tid) w).

Definition clearTimeout (tid : nat) (w : world) : world :=
  set_timers (delete tid (timers w)) (nextTimer w) w.

(** *** The body of [pollProcessingStatus] *)

Definition pollKey (documentId taskId : string) : string :=
  documentId +:+ "-" +:+ taskId.

Definition key_of (r : run) : string := pollKey (documentId r) (taskId r).

Definition reviewPath (documentId : string) : string :=
  "/document/" +:+ documentId +:+ "/review".

(** [cleanup]: a handle is truthy, an unset [timeoutId] is not. *)
Definition cleanup (r : run) (w : world) : world :=
  let w := set_activePolls (activePolls w ∖ {[key_of r]}) w in
  match timeoutId r with
  | Some tid => clearTimeout tid w
  | None => w
  end.

(** [timeoutId = setTimeout(checkStatus, currentDelay)] *)
Definition again (rid : nat) (r : run) (w : world) : run * world :=
  let '(tid, w) := setTimeout (CheckStatus rid) (currentDelay r) w in
  (set_timeoutId (Some tid) r, w).

(** The [catch] block of [checkStatus]. *)
Definition caught (rid : nat) (status : http_error) (r : run) (w : world)
  : run * world :=
  if bool_decide (status = Some 429%Z) then
    let r := set_currentDelay (Qmin (currentDelay r * 2) maxDelay) r in
    let continue := (attempts r <? maxAttempts)%Z in
    let r := set_attempts (attempts r + 1) r in
    if continue then again rid r w
    else (r, cleanup r w)
  else
    let continue := (attempts r <? 3)%Z in
    let r := set_attempts (attempts r + 1) r in
    if continue then
      let r := set_currentDelay (Qmin (currentDelay r * 1.5) maxDelay) r in
      again rid r w
    else
      let w := setUploadResult
                 {| type := Some error;
                    message := "Unable to check processing status. Please refresh the page." |}
                 w in
      (r, cleanup r w).

(** [checkStatus] from the reply of its request on. *)
Definition checkStatus_settle (rid : nat) (o : reply) (r : run) (w : world)
  : run * world :=
  match o with
  | Rejected status => caught rid status r w
  | Resolved data =>
      let w := setProcessingStatus data w in
      match data with
      | None => caught rid None r w
      | Some status =>
          if bool_decide (processing_status status = Some "completed") then
            let w := setUploadResult
                       {| type := Some success;
                          message := "AI analysis completed!" |} w in
            let w := show (ToastSuccess "AI analysis completed!") w in
            let w := cleanup r w in
            (r, snd (setTimeout (Navigate (reviewPath (documentId r))) 1500 w))
          else if bool_decide (processing_status status = Some "failed") then
            let w := setUploadResult
                       {| type := Some error;
                          message := "Document uploaded but AI processing failed." |}
                       w in
            (r, cleanup r w)
          else
            let continue := (attempts r <? maxAttempts)%Z in
            let r := set_attempts (attempts r + 1) r in
            if continue then
              let r := set_currentDelay 5000 r in
              again rid r w
            else
              let w := setUploadResult
                         {| type := Some error;
                            message := "Processing timeout. Please check back later." |}
                         w in
              (r, cleanup r w)
      end
  end.

(** [checkStatus] up to its [await]: one status request is sent. *)
Definition checkStatus (rid : nat) (w : world) : world :=
  match runs w !! rid with
  | Some r => set_runs (<[rid := sent r]> (runs w)) w
  | None => w
  end.

(** [pollProcessingStatus(documentId, taskId, ...)]: the result is the
    run whose [cleanup] is returned, or [None] for [undefined]. *)
Definition pollProcessingStatus (documentId taskId : string) (w : world)
  : option nat * world :=
  let key := pollKey documentId taskId in
  if bool_decide (key ∈ activePolls w) then (None, w)
  else
    let w := set_activePolls ({[key]} ∪ activePolls w) w in
    let rid := length (runs w) in
    let w := set_runs (runs w ++
               [{| documentId := documentId; taskId := taskId;
                   attempts := 0; currentDelay := 5000; timeoutId := None;
                   awaiting := 0; requests := 0 |}]) w in
    (Some rid, checkStatus rid w).

(** *** The environment *)

Inductive event :=
| Call (documentId taskId : string)  (* a caller polls for a document *)
| Settle (rid : nat) (o : reply)     (* a request in flight settles *)
| Fire (tid : nat)                   (* a pending timer goes off *)
| Cancel (rid : nat).                (* the returned cleanup is invoked *)

Definition step (w : world) (e : event) : world :=
  match e with
  | Call d t => snd (pollProcessingStatus d t w)
  | Settle rid o =>
      match runs w !! rid with
      | Some r =>
          if (0 <? awaiting r)%Z then
            let '(r, w) := checkStatus_settle rid o (settled r) w in
            set_runs (<[rid := r]> (runs w)) w
          else w
      | None => w
      end
  | Fire tid =>
      match timers w !! tid with
      | Some t =>
          let w := clearTimeout tid w in
          match callback_of t with
          | CheckStatus rid => checkStatus rid w
          | Navigate path => navigate path w
          end
      | None => w
      end
  | Cancel rid =>
      match runs w !! rid with
      | Some r => cleanup r w
      | None => w
      end
  end.

Definition exec (w : world) (es : list event) : world := foldl step w es.

(** *** [useProcessingStatusPoll]

    The effect of the hook and the clean-up function the effect returns.
    Of the state of the hook only [cleanupRef] is kept: [None] stands for
    [null], [Some rid] for the [cleanup] of the run [rid]. *)
Definition useProcessingStatusPoll_effect
    (documentId taskId : string) (shouldPoll : bool)
    (cleanupRef : option nat) (w : world) : option nat * world :=
  if negb shouldPoll || negb (truthy (Some documentId))
     || negb (truthy (Some taskId))
  then (cleanupRef, w)
  else pollProcessingStatus documentId taskId w.

Definition useProcessingStatusPoll_teardown
    (cleanupRef : option nat) (w : world) : world :=
  match cleanupRef with
  | Some rid => step w (Cancel rid)
  | None => w
  end.

(** A component that uses the hook is mounted, unmounted and mounted
    again, as React's [StrictMode] does with every new component during
    development. *)
Definition remounted (documentId taskId : string) (w : world) : world :=
  let '(ref, w) := useProcessingStatusPoll_effect documentId taskId true None w in
  let w := useProcessingStatusPoll_teardown ref w in
  (useProcessingStatusPoll_effect documentId taskId true ref w).2.

(** A run is alive while it has a request in flight or a timer that will
    call its [checkStatus]. *)
Definition sleeping (w : world) (rid : nat) : Prop :=
  ∃ tid d, timers w !! tid = Some {| callback_of := CheckStatus rid; delay_of := d |}.

Definition alive (w : world) (rid : nat) : Prop :=
  (∃ r, runs w !! rid = Some r ∧ (0 < awaiting r)%Z) ∨ sleeping w rid.

Definition is_cancel (e : event) : bool :=
  match e with Cancel _ => true | _ => false end.

End ProcessingPoller.

(** ** hooks/useFileUpload.ts *)

Module FileUpload.
Import Js ProcessingPoller.

Record File := { file_name : string }.

(** [res.data.processing] *)
Record Processing := { task_id : value }.

(** The parts of a resolved upload that [handleUpload] reads:
    [res.status], [res.data.processing] and [res.data.data?.document_id]. *)
Record Response := {
  status : Z;
  processing_field : option Processing;
  document_id : value;
}.

Inductive reply :=
| Resolved (res : Response)
| Rejected.

(** The state of the hook.  [page] holds [processingStatus] and
    [uploadResult], whose setters are the ones handed to the poller, and
    the timers and runs of the poller itself; [posted] lists the upload
    requests that were sent. *)
Record hook := {
  uploadedFile : option File;
  isUploading : bool;
  token : value;
  posted : list File;
  page : world;
}.

Definition set_page (w : world) (h : hook) : hook :=
  {| uploadedFile := uploadedFile h; isUploading := isUploading h;
     token := token h; posted := posted h; page := w |}.

Definition setIsUploading (b : bool) (h : hook) : hook :=
  {| uploadedFile := uploadedFile h; isUploading := b;
     token := token h; posted := posted h; page := page h |}.

Definition post (f : File) (h : hook) : hook :=
  {| uploadedFile := uploadedFile h; isUploading := isUploading h;
     token := token h; posted := posted h ++ [f]; page := page h |}.

(** [handleUpload] up to its [await]. *)
Definition handleUpload (h : hook) : hook :=
  match uploadedFile h with
  | None => h
  | Some file =>
      if negb (truthy (token h)) then
        set_page (setUploadResult
                    {| type := Some error;
                       message := "Authentication required. Please log in to upload documents." |}
                    (page h)) h
      else post file (setIsUploading true h)
  end.

(** [handleUpload] from the reply of the upload request on.  The two
    identifiers only ever appear inside template literals, so they are
    passed on as the strings those literals print. *)
Definition handleUpload_settle (o : reply) (h : hook) : hook :=
  let h :=
    match o with
    | Resolved res =>
        match (status res =? 202)%Z, processing_field res with
        | true, Some proc =>
            let documentId := document_id res in
            let taskId := task_id proc in
            let w := setUploadResult
                       {| type := Some processing;
                          message := "AI analysis in progress..." |} (page h) in
            set_page (snd (pollProcessingStatus (template documentId)
                                                (template taskId) w)) h
        | _, _ =>
            let documentId := document_id res in
            let w := show (ToastSuccess "Document uploaded successfully!") (page h) in
            let w := setUploadResult
                       {| type := Some success;
                          message := "Document uploaded successfully!" |} w in
            set_page (snd (setTimeout (Navigate (reviewPath (template documentId)))
                                      1500 w)) h
        end
    | Rejected =>
        set_page (setUploadResult
                    {| type := Some error;
                       message := "Upload failed. Try again." |} (page h)) h
    end in
  setIsUploading false h.

Definition setUploadedFile (f : option File) (h : hook) : hook :=
  {| uploadedFile := f; isUploading := isUploading h;
     token := token h; posted := posted h; page := page h |}.

(** [handleDrop(acceptedFiles)]: the first file, if there is one. *)
Definition handleDrop (acceptedFiles : list File) (h : hook) : hook :=
  match acceptedFiles with
  | [] => h
  | file :: _ =>
      let h := setUploadedFile (Some file) h in
      let w := setUploadResult {| type := None; message := "" |} (page h) in
      set_page (setProcessingStatus None w) h
  end.

Definition resetUpload (h : hook) : hook :=
  let h := setUploadedFile None h in
  let w := setUploadResult {| type := None; message := "" |} (page h) in
  set_page (setProcessingStatus None w) h.

(** The three panels of the page that uses the hook ([UploadFile]), each
    behind its own condition: the result alert, the drop zone, and the
    card of the selected file, which carries the upload button. *)
Definition showsResult (h : hook) : bool :=
  bool_decide (is_Some (type (uploadResult (page h)))).

Definition showsDropzone (h : hook) : bool :=
  negb (bool_decide (is_Some (uploadedFile h))) && negb (showsResult h).

Definition showsSelectedFile (h : hook) : bool :=
  bool_decide (is_Some (uploadedFile h)) && negb (showsResult h).

End FileUpload.

(** ** components/processing-queue/ProcessingQueue.tsx *)

Module ProcessingQueue.
Import Js QueueUtils.

(** A pending refresh: its delay, and the token seen by the
    [handleFetchDocuments] of the render that scheduled it. *)
Record timer := { delay_of : Q; token_of : value }.

(** The state of one mounted component.  [documentsId] stands for the
    identity of the array in [documents] (React compares dependencies
    with [Object.is]; every array the code stores is a new one);
    [fetching] counts the [fetchDocuments] calls in flight and [updates]
    the calls of [onDocumentUpdate]. *)
Record component := {
  token : value;
  documents : list QueueDocument;
  documentsId : nat;
  isLoading : bool;
  pollDelay : Q;
  pollTimer : option nat;
  timers : gmap nat timer;
  nextTimer : nat;
  fetching : Z;
  toasts : list toast;
  updates : Z;
}.

Definition set_token (t : value) (c : component) : component :=
  {| token := t; documents := documents c; documentsId := documentsId c;
     isLoading := isLoading c; pollDelay := pollDelay c;
     pollTimer := pollTimer c; timers := timers c; nextTimer := nextTimer c;
     fetching := fetching c; toasts := toasts c; updates := updates c |}.

Definition setDocuments (docs : list QueueDocument) (c : component) : component :=
  {| token := token c; documents := docs; documentsId := S (documentsId c);
     isLoading := isLoading c; pollDelay := pollDelay c;
     pollTimer := pollTimer c; timers := timers c; nextTimer := nextTimer c;
     fetching := fetching c; toasts := toasts c; updates := updates c |}.

Definition setIsLoading (b : bool) (c : component) : component :=
  {| token := token c; documents := documents c; documentsId := documentsId c;
     isLoading := b; pollDelay := pollDelay c;
     pollTimer := pollTimer c; timers := timers c; nextTimer := nextTimer c;
     fetching := fetching c; toasts := toasts c; updates := updates c |}.

Definition setPollDelay (d : Q) (c : component) : component :=
  {| token := token c; documents := documents c; documentsId := documentsId c;
     isLoading := isLoading c; pollDelay := d;
     pollTimer := pollTimer c; timers := timers c; nextTimer := nextTimer c;
     fetching := fetching c; toasts := toasts c; updates := updates c |}.

Definition set_timers (p : option nat) (m : gmap nat timer) (n : nat)
    (c : component) : component :=
  {| token := token c; documents := documents c; documentsId := documentsId c;
     isLoading := isLoading c; pollDelay := pollDelay c;
     pollTimer := p; timers := m; nextTimer := n;
     fetching := fetching c; toasts := toasts c; updates := updates c |}.

Definition set_fetching (n : Z) (c : component) : component :=
  {| token := token c; documents := documents c; documentsId := documentsId c;
     isLoading := isLoading c; pollDelay := pollDelay c;
     pollTimer := pollTimer c; timers := timers c; nextTimer := nextTimer c;
     fetching := n; toasts := toasts c; updates := updates c |}.

Definition set_toasts (l : list toast) (c : component) : component :=
  {| token := token c; documents := documents c; documentsId := documentsId c;
     isLoading := isLoading c; pollDelay := pollDelay c;
     pollTimer := pollTimer c; timers := timers c; nextTimer := nextTimer c;
     fetching := fetching c; toasts := l; updates := updates c |}.

Definition onDocumentUpdate (c : component) : component :=
  {| token := token c; documents := documents c; documentsId := documentsId c;
     isLoading := isLoading c; pollDelay := pollDelay c;
     pollTimer := pollTimer c; timers := timers c; nextTimer := nextTimer c;
     fetching := fetching c; toasts := toasts c; updates := updates c + 1 |}.

Definition clearPollTimer (c : component) : component :=
  match pollTimer c with
  | Some tid => set_timers None (delete tid (timers c)) (nextTimer c) c
  | None => c
  end.

(** [handleFetchDocuments] of a render that saw the token [tok], up to
    its [await]. *)
Definition handleFetchDocuments (tok : value) (c : component) : component :=
  if negb (truthy tok) then c
  else set_fetching (fetching c + 1) (setIsLoading true c).

(** [handleFetchDocuments] from the reply of the request on.  The token
    handed to [fetchDocuments] has passed the guard above, so the guard
    of [fetchDocuments] itself does not apply. *)
Definition handleFetchDocuments_settle (r : reply) (c : component) : component :=
  let '(o, ts) := fetchDocuments_settle r (toasts c) in
  let c := set_toasts ts c in
  let c :=
    match o with
    | Returned docs => setPollDelay 10000 (setDocuments docs c)
    | Thrown st =>
        if bool_decide (st = Some 429%Z) then
          setPollDelay (Qmin (pollDelay c * 2) 300000) c
        else c
    end in
  setIsLoading false c.

(** The toast of [cancelDocument] in [queueUtils.ts]: none without a
    token (no request is made), else one for the way the request went. *)
Definition cancelDocument_toast (tok : value) (ok : bool) (l : list toast)
  : list toast :=
  if negb (truthy tok) then l
  else if ok then l ++ [ToastSuccess "Document removed successfully"]
  else l ++ [ToastError "Failed to cancel document processing"].

Definition isActive (doc : QueueDocument) : bool :=
  bool_decide (status doc = Processing) || bool_decide (status doc = Uploaded).

Definition hasActiveDocs (docs : list QueueDocument) : bool :=
  existsb isActive docs.

(** The body of the effect commented "Adaptive polling". *)
Definition adaptivePolling (c : component) : component :=
  let c := clearPollTimer c in
  if hasActiveDocs (documents c) then
    let tid := nextTimer c in
    set_timers (Some tid)
      (<[tid := {| delay_of := pollDelay c; token_of := token c |}]> (timers c))
      (S tid) c
  else c.

Inductive event :=
| Login (tok : value)       (* useAuth yields another token *)
| Refresh                   (* the refresh button of the header *)
| Tick (tid : nat)          (* a pending refresh goes off *)
| Fetched (r : reply)       (* a fetch in flight settles *)
| Cancelled (documentId : string) (ok : bool)
                            (* cancelDocument settles for a document *)
| Rerender.                 (* the parent passes a new onDocumentUpdate *)

(** The handler an event runs. *)
Definition handle (c : component) (e : event) : component :=
  match e with
  | Login tok => handleFetchDocuments tok (clearPollTimer (set_token tok c))
  | Refresh => handleFetchDocuments (token c) c
  | Tick tid =>
      match timers c !! tid with
      | Some t =>
          let c := set_timers (pollTimer c) (delete tid (timers c)) (nextTimer c) c in
          onDocumentUpdate (handleFetchDocuments (token_of t) c)
      | None => c
      end
  | Fetched r =>
      if (0 <? fetching c)%Z then
        handleFetchDocuments_settle r (set_fetching (fetching c - 1) c)
      else c
  | Cancelled documentId ok =>
      if ok then
        onDocumentUpdate
          (setDocuments
             (filter (λ doc, id doc ≠ Some documentId) (documents c))
             (set_toasts (cancelDocument_toast (token c) ok (toasts c)) c))
      else set_toasts (cancelDocument_toast (token c) ok (toasts c)) c
  | Rerender => c
  end.

(** Whether React re-runs the adaptive-polling effect after the handler:
    one of its dependencies [documents, pollDelay, onDocumentUpdate] is
    no longer the same. *)
Definition depsChanged (before after : component) (e : event) : bool :=
  negb (documentsId before =? documentsId after)%nat
  || negb (Qeq_bool (pollDelay before) (pollDelay after))
  || match e with Rerender => true | _ => false end.

Definition step (c : component) (e : event) : component :=
  let c' := handle c e in
  if depsChanged c c' e then adaptivePolling c' else c'.

Definition exec (c : component) (es : list event) : component := foldl step c es.

(** The component after its first render with the token [tok]: both
    effects have run; there are no documents yet, so no refresh is
    pending. *)
Definition mount (tok : value) : component :=
  adaptivePolling
    (handleFetchDocuments tok
       {| token := tok; documents := []; documentsId := 0; isLoading := false;
          pollDelay := 10000; pollTimer := None; timers := ∅; nextTimer := 1;
          fetching := 0; toasts := []; updates := 0 |}).

End ProcessingQueue.

(** ** components/processing-queue/QueueSummary.tsx *)

Module QueueSummary.
Import Js QueueUtils.

(** What the summary computes from the documents it is given. *)
Record summary := {
  totalDocs : nat;
  completedDocs : nat;
  processingDocs : nat;
  failedDocs : nat;
  hasActiveDocs : bool;
}.

Definition QueueSummary (documents : list QueueDocument) : summary :=
  {| totalDocs := length documents;
     completedDocs := length (filter (λ d, status d = Completed) documents);
     processingDocs := length (filter (λ d, status d = Processing) documents);
     failedDocs := length (filter (λ d, status d = Failed) documents);
     hasActiveDocs :=
       existsb (λ d, bool_decide (status d = Processing)
                     || bool_decide (status d = Uploaded)) documents |}.

(** The "Failed" counter is rendered behind [failedDocs > 0]. *)
Definition showsFailed (s : summary) : bool := (0 <? failedDocs s)%nat.

End QueueSummary.

(** ** pages/HomePage.tsx, as the parent of the queue

    [HomePage] passes [handleDocumentUpdate] as [onDocumentUpdate].  The
    function is created anew by every render of the page and sets the
    state [refreshTrigger], so each call of [onDocumentUpdate] makes the
    page render again and hand a new function to the queue. *)

Module HomePage.
Import ProcessingQueue.

(** Whether the handler of an event calls [onDocumentUpdate]. *)
Definition notifies (c : component) (e : event) : bool :=
  negb (updates (handle c e) =? updates c)%Z.

(** One event of the queue inside the page. *)
Definition step (c : component) (e : event) : component :=
  if notifies c e then ProcessingQueue.step (ProcessingQueue.step c e) Rerender
  else ProcessingQueue.step c e.

End HomePage.

(** ** Auxiliary definitions for the statements *)

Section Statements.
Import Js.

(** All the case labels of one mapper. *)
Definition queue_labels : list string :=
  QueueUtils.uploaded_labels ++ QueueUtils.processing_labels ++
  QueueUtils.completed_labels ++ QueueUtils.failed_labels.

Definition usage_labels : list string :=
  UsageStatsUtils.completed_labels ++ UsageStatsUtils.processing_labels ++
  UsageStatsUtils.failed_labels ++ UsageStatsUtils.uploaded_labels.

(** The display status [fetchUsageStatistics] counts a document under. *)
Definition usage_status (doc : QueueUtils.ApiDocument) : string :=
  UsageStatsUtils.mapApiStatusToDisplayStatus
    (or (or (QueueUtils.api_status doc) (QueueUtils.api_processing_status doc))
        (QueueUtils.api_state doc)).

(** The array of documents a resolved request carries. *)
Definition payload (b : QueueUtils.body) : list QueueUtils.ApiDocument :=
  match b with
  | QueueUtils.Wrapped data => data
  | QueueUtils.Bare docs => docs
  | QueueUtils.Unexpected => []
  end.

(** The upload hook right after mounting, logged out and with no file. *)
Definition idle_hook : FileUpload.hook :=
  {| FileUpload.uploadedFile := None; FileUpload.isUploading := false;
     FileUpload.token := None; FileUpload.posted := [];
     FileUpload.page := ProcessingPoller.initial |}.

End Statements.

(** ** Invariants of the poller *)

Section PollerInvariant.
Import ProcessingPoller.

(** What holds of every run in a world the events can produce. *)
Record run_ok (w : world) (r : run) : Prop := {
  ok_awaiting : (0 ≤ awaiting r ≤ 1)%Z;
  ok_attempts : (0 ≤ attempts r)%Z;
  ok_requests : (0 ≤ requests r ≤ 61)%Z;
  ok_in_flight :
    awaiting r = 1%Z → requests r = (attempts r + 1)%Z ∧ (attempts r ≤ 60)%Z;
  ok_handle : ∀ tid, timeoutId r = Some tid → tid < nextTimer w;
  ok_delay : (currentDelay r <= maxDelay)%Q;
}.

(** What holds of every pending timer: its handle has been handed out,
    and a timer for [checkStatus] is the one its run remembers, set
    while no request of the run is in flight. *)
Record timer_ok (w : world) (tid : nat) (t : timer) : Prop := {
  ok_fresh : tid < nextTimer w;
  ok_owner : ∀ rid, callback_of t = CheckStatus rid →
    ∃ r, runs w !! rid = Some r ∧ timeoutId r = Some tid ∧
         awaiting r = 0%Z ∧ requests r = attempts r ∧ (attempts r ≤ 60)%Z ∧
         (delay_of t <= maxDelay)%Q;
}.

Definition Inv (w : world) : Prop :=
  (∀ rid r, runs w !! rid = Some r → run_ok w r) ∧
  (∀ tid t, timers w !! tid = Some t → timer_ok w tid t).

(** The delays stay exact: after [a] attempts, of which at most the first
    three multiplied the delay by 1.5, the delay is a whole number of
    [1 / 2 ^ min a 3] milliseconds. *)
Definition scale (a : Z) : Q := inject_Z (2 ^ Z.min a 3).

Definition exactly (a : Z) (q : Q) : Prop :=
  (0 ≤ a)%Z ∧ ∃ n : Z, (q * scale a == inject_Z n)%Q.

Definition exact_run (r : run) : Prop := exactly (attempts r) (currentDelay r).

(** A run right after the call that created it: its first request is
    in flight. *)
Definition fresh_run (documentId taskId : string) : run :=
  {| documentId := documentId; taskId := taskId; attempts := 0;
     currentDelay := 5000; timeoutId := None; awaiting := 1; requests := 1 |}.

(** The two ways [checkStatus] can go on after a reply: it sets a timer
    for itself, or it runs [cleanup] (and, on completion, sets a timer
    for the navigation). *)
Definition goes_on (rid : nat) (r : run) (w : world) (r' : run) (w' : world)
  : Prop :=
  ∃ d, timers w' = <[nextTimer w := {| callback_of := CheckStatus rid; delay_of := d |}]> (timers w) ∧
       nextTimer w' = S (nextTimer w) ∧
       activePolls w' = activePolls w ∧
       timeoutId r' = Some (nextTimer w) ∧
       currentDelay r' = d ∧ (d <= maxDelay)%Q ∧
       attempts r' = (attempts r + 1)%Z ∧ (attempts r < maxAttempts)%Z.

Definition ends (r : run) (w : world) (r' : run) (w' : world) : Prop :=
  activePolls w' = activePolls w ∖ {[key_of r]} ∧
  timeoutId r' = timeoutId r ∧
  (currentDelay r <= maxDelay → currentDelay r' <= maxDelay)%Q ∧
  (attempts r ≤ attempts r' ≤ attempts r + 1)%Z ∧
  (timers w' = from_option (λ tid, delete tid (timers w)) (timers w) (timeoutId r)
     ∧ nextTimer w' = nextTimer w
   ∨ ∃ path,
     timers w' = <[nextTimer w := {| callback_of := Navigate path; delay_of := 1500 |}]>
                   (from_option (λ tid, delete tid (timers w)) (timers w) (timeoutId r))
     ∧ nextTimer w' = S (nextTimer w)).

(** The five replies after which [checkStatus] does not go on: the
    document is completed, it has failed, it is still in progress but
    the attempts are used up, the server rate-limits and the attempts
    are used up, or the request fails otherwise (a reply without a
    status object included) when three attempts have been made. *)
Definition terminating (o : reply) (r : run) : Prop :=
  match o with
  | Resolved (Some st) =>
      processing_status st = Some "completed" ∨
      processing_status st = Some "failed" ∨
      (maxAttempts ≤ attempts r)%Z
  | Resolved None => (3 ≤ attempts r)%Z
  | Rejected status =>
      if decide (status = Some 429%Z) then (maxAttempts ≤ attempts r)%Z
      else (3 ≤ attempts r)%Z
  end.

(** No two runs that are alive share a key, and the key of a run that
    is alive is registered. *)
Definition deduplicated (w : world) : Prop :=
  (∀ rid r, runs w !! rid = Some r → alive w rid → key_of r ∈ activePolls w) ∧
  (∀ rid1 rid2 r1 r2,
      runs w !! rid1 = Some r1 → runs w !! rid2 = Some r2 →
      alive w rid1 → alive w rid2 → key_of r1 = key_of r2 → rid1 = rid2).

(** The browser as a run sees it when nothing else interferes: the reply
    to its request arrives and then, if the run has set a timer for its
    next request, that timer goes off. *)
Definition wake (rid : nat) (w : world) : world :=
  match runs w !! rid with
  | Some r =>
      match timeoutId r with
      | Some tid =>
          match timers w !! tid with
          | Some t =>
              if decide (callback_of t = CheckStatus rid) then step w (Fire tid)
              else w
          | None => w
          end
      | None => w
      end
  | None => w
  end.

Definition deliver (rid : nat) (w : world) (o : reply) : world :=
  wake rid (step w (Settle rid o)).

(** A caller polls for a document, cancels the poll while its first
    request is in flight, and polls for the same document again. *)
Definition cancel_in_flight : list event :=
  [Call "doc" "task"; Cancel 0; Call "doc" "task"].

(** One run that is answered 429 sixty times in a row; the timer set after
    the [k]-th reply has the handle [k]. *)
Definition rate_limited : list event :=
  Call "doc" "task"
  :: flat_map (λ k, [Settle 0 (Rejected (Some 429%Z)); Fire k]) (seq 1 60).

Definition in_progress : reply :=
  Resolved (Some {| processing_status := Some "processing" |}).

End PollerInvariant.

(** ** Invariant of the processing queue *)

Section QueueInvariant.
Import QueueUtils ProcessingQueue.

(** At most the refresh the component remembers in [pollTimer] is
    pending; it was set for the current delay while a document was still
    active; the delay never exceeds five minutes. *)
Record queue_ok (c : component) : Prop := {
  ok_pending : ∀ tid t, timers c !! tid = Some t →
    pollTimer c = Some tid ∧
    hasActiveDocs (documents c) = true ∧
    (delay_of t == pollDelay c)%Q;
  ok_remembered : ∀ tid, pollTimer c = Some tid → tid < nextTimer c;
  ok_pollDelay : (pollDelay c <= 300000)%Q;
}.

(** The spinner is on only while a fetch is in flight. *)
Definition loading_ok (c : component) : Prop :=
  (0 ≤ fetching c)%Z ∧ (isLoading c = true → (0 < fetching c)%Z).

(** The events that leave the dependencies of the adaptive-polling effect
    alone: a refresh by hand, a timer going off, a fetch that fails with
    a status other than 429, and a cancellation that fails. *)
Definition quiet (e : event) : bool :=
  match e with
  | Refresh | Tick _ | Cancelled _ false => true
  | Fetched (Rejected st) => negb (bool_decide (st = Some 429%Z))
  | _ => false
  end.

(** [n] refreshes by hand, each answered 429. *)
Definition throttled (n : nat) : list event :=
  mjoin (replicate n [Refresh; Fetched (Rejected (Some 429%Z))]).

End QueueInvariant.

(** ** More invariants of the poller *)

Section PollerHandles.
Import ProcessingPoller.

(** A timer that is pending under the handle a run remembers is the
    timer of that run. *)
Definition handles_ok (w : world) : Prop :=
  ∀ rid r tid t,
    runs w !! rid = Some r → timeoutId r = Some tid →
    timers w !! tid = Some t → callback_of t = CheckStatus rid.


(** Every page visited, and every page a pending timer will visit, is the
    review page of a document that was polled. *)
Definition visits_ok (w : world) : Prop :=
  (∀ path, path ∈ location w →
           ∃ rid r, runs w !! rid = Some r ∧ path = reviewPath (documentId r)) ∧
  (∀ tid t path, timers w !! tid = Some t → callback_of t = Navigate path →
           delay_of t = 1500%Q ∧
           ∃ rid r, runs w !! rid = Some r ∧ path = reviewPath (documentId r)).

(** No hyphen in an identifier. *)
Fixpoint hyphen_free (s : string) : bool :=
  match s with
  | EmptyString => true
  | String c s' => negb (Ascii.eqb c (Ascii.ascii_of_nat 45)) && hyphen_free s'
  end.

End PollerHandles.


(** ** Facts about the poller *)

Section PollerFacts.
Import Js ProcessingPoller.

Lemma Qmin_maxDelay q : (Qmin q maxDelay <= maxDelay)%Q.
Proof. apply Q.le_min_r. Qed.

Lemma base_le_maxDelay : (5000 <= maxDelay)%Q.
Proof. unfold maxDelay. lra. Qed.

Lemma cleanup_timers r w :
  timers (cleanup r w)
  = from_option (λ tid, delete tid (timers w)) (timers w) (timeoutId r).
Proof. unfold cleanup. by destruct (timeoutId r). Qed.

Lemma cleanup_activePolls r w :
  activePolls (cleanup r w) = activePolls w ∖ {[key_of r]}.
Proof. unfold cleanup. by destruct (timeoutId r). Qed.

Lemma cleanup_nextTimer r w : nextTimer (cleanup r w) = nextTimer w.
Proof. unfold cleanup. by destruct (timeoutId r). Qed.

Lemma cleanup_runs r w : runs (cleanup r w) = runs w.
Proof. unfold cleanup. by destruct (timeoutId r). Qed.

Lemma cleanup_ends r r' w w0 :
  activePolls w0 = activePolls w → timers w0 = timers w →
  nextTimer w0 = nextTimer w →
  timeoutId r' = timeoutId r → key_of r' = key_of r →
  (currentDelay r <= maxDelay → currentDelay r' <= maxDelay)%Q →
  (attempts r ≤ attempts r' ≤ attempts r + 1)%Z →
  ends r w r' (cleanup r' w0).
Proof.
  intros Ha Ht Hn Hid Hk Hd Hat. unfold ends.
  rewrite cleanup_activePolls, cleanup_timers, cleanup_nextTimer.
  rewrite Ha, Ht, Hn, Hid, Hk. repeat split; try done; try lia. by left.
Qed.

Ltac decide_terminating :=
  unfold terminating, maxAttempts in *; simpl;
  repeat case_decide; first [ congruence | lia | intuition (congruence || lia) ].

Lemma checkStatus_settle_shape rid o r w :
  ∀ r' w', checkStatus_settle rid o r w = (r', w') →
  runs w' = runs w ∧ key_of r' = key_of r ∧
  awaiting r' = awaiting r ∧ requests r' = requests r ∧
  (terminating o r ∧ ends r w r' w' ∨ ¬ terminating o r ∧ goes_on rid r w r' w').
Proof.
  intros r' w'. unfold checkStatus_settle, caught, again, setTimeout.
  destruct o as [[st|]|status]; simpl;
    repeat case_bool_decide; simpl;
    repeat match goal with
           | |- context [(?a <? ?b)%Z] => destruct (Z.ltb_spec a b); simpl
           end;
    intros [= <- <-]; simpl; rewrite ?cleanup_runs; simpl;
    (split; [done|split; [done|split; [done|split; [done|]]]]).
  all: try solve [ right; split; [decide_terminating|];
                   unfold goes_on, maxAttempts in *; eexists; simpl; repeat split;
                   first [ done | lia | apply Qmin_maxDelay | apply base_le_maxDelay ] ].
  all: left; (split; [decide_terminating|]).
  all: try solve [ apply cleanup_ends; simpl;
                   first [ done | lia | intros _; apply Qmin_maxDelay ] ].
  all: unfold ends, cleanup; destruct (timeoutId r); simpl;
    (split; [done|split; [done|split; [done|split; [lia|]]]]);
    right; eexists; split; reflexivity.
Qed.

(** *** The guard of [pollProcessingStatus] *)

Lemma poll_registered d t w :
  pollKey d t ∈ activePolls w → pollProcessingStatus d t w = (None, w).
Proof. intros H. unfold pollProcessingStatus. by rewrite bool_decide_eq_true_2. Qed.

Lemma poll_unregistered d t w :
  pollKey d t ∉ activePolls w →
  pollProcessingStatus d t w
  = (Some (length (runs w)),
     set_runs (runs w ++ [fresh_run d t])
              (set_activePolls ({[pollKey d t]} ∪ activePolls w) w)).
Proof.
  intros H. unfold pollProcessingStatus, checkStatus.
  rewrite bool_decide_eq_false_2 by done. simpl.
  rewrite lookup_app_r by lia. rewrite Nat.sub_diag. simpl.
  rewrite insert_app_r_alt by lia. rewrite Nat.sub_diag. done.
Qed.

(** *** The invariant is kept by every event *)

Lemma run_ok_later w w' r :
  run_ok w r → nextTimer w ≤ nextTimer w' → run_ok w' r.
Proof.
  intros [] Hn. split; try done. intros tid Ht.
  specialize (ok_handle0 tid Ht). lia.
Qed.

Lemma Inv_initial : Inv initial.
Proof. split; intros ? ?; simpl; [by rewrite lookup_nil | by rewrite lookup_empty]. Qed.

Lemma Inv_call d t w : Inv w → Inv (step w (Call d t)).
Proof.
  intros [Hr Ht]. simpl.
  destruct (decide (pollKey d t ∈ activePolls w)) as [Hin|Hin].
  { by rewrite poll_registered. }
  rewrite poll_unregistered by done. simpl. split.
  - intros rid r. simpl. rewrite lookup_app_Some. intros [H|[_ H]].
    + eapply run_ok_later; [by eapply Hr | done].
    + destruct (rid - length (runs w)) as [|k]; simpl in H; [|by rewrite lookup_nil in H].
      injection H as <-. split; simpl; try done; try lia.
  - intros tid tm H. simpl in H. destruct (Ht tid tm H) as [Hf Ho].
    split; [done|]. intros rid Hc. destruct (Ho rid Hc) as (r & Hl & ?).
    exists r. split; [|done]. simpl. by apply lookup_app_l_Some.
Qed.

Lemma step_settle w rid o r :
  runs w !! rid = Some r → (0 < awaiting r)%Z →
  step w (Settle rid o)
  = set_runs (<[rid := (checkStatus_settle rid o (settled r) w).1]>
                (runs (checkStatus_settle rid o (settled r) w).2))
             (checkStatus_settle rid o (settled r) w).2.
Proof.
  intros Hl Ha. simpl. rewrite Hl.
  destruct (Z.ltb_spec 0 (awaiting r)); [|lia].
  by destruct (checkStatus_settle rid o (settled r) w).
Qed.

Lemma step_settle_idle w rid o :
  (∀ r, runs w !! rid = Some r → (awaiting r ≤ 0)%Z) →
  step w (Settle rid o) = w.
Proof.
  intros H. simpl. destruct (runs w !! rid) as [r|] eqn:Hl; [|done].
  specialize (H r eq_refl). by destruct (Z.ltb_spec 0 (awaiting r)); [lia|].
Qed.

Lemma Inv_settle rid o w : Inv w → Inv (step w (Settle rid o)).
Proof.
  intros [Hr Ht].
  destruct (runs w !! rid) as [r|] eqn:Hl;
    [|rewrite step_settle_idle; [done|intros ? ?; congruence]].
  destruct (Z.lt_ge_cases 0 (awaiting r)) as [Ha|Ha];
    [|rewrite step_settle_idle; [done|intros ? ?; simplify_eq; lia]].
  rewrite (step_settle _ _ _ _ Hl Ha).
  destruct (checkStatus_settle rid o (settled r) w) as [r' w'] eqn:Hs.
  destruct (checkStatus_settle_shape _ _ _ _ _ _ Hs)
    as (Hruns & Hkey & Haw & Hreq & Hcase).
  simpl in Haw, Hreq. simpl.
  destruct (Hr _ _ Hl) as [H1 H2 H3 H4 H5 H6].
  assert (awaiting r = 1%Z) as Hone by lia.
  destruct (H4 Hone) as [H4a H4b].
  assert (Hlen : rid < length (runs w)) by (by eapply lookup_lt_Some).
  (* no timer of this run is pending while its request is in flight *)
  assert (Hnone : ∀ tid t, timers w !! tid = Some t → callback_of t ≠ CheckStatus rid).
  { intros tid t Hti Hc. destruct (Ht _ _ Hti) as [_ Ho].
    destruct (Ho _ Hc) as (r0 & Hl0 & _ & Haw0 & _). simplify_eq. lia. }
  assert (Hnext : nextTimer w ≤ nextTimer w').
  { destruct Hcase as [(_ & _ & _ & _ & _ & [[_ ->]|(p & _ & ->)])|(_ & d & _ & -> & _)]; lia. }
  split.
  - intros rid0 r0. simpl. rewrite Hruns.
    destruct (decide (rid0 = rid)) as [->|Hne].
    + rewrite list_lookup_insert_eq by done. intros [= <-].
      split; try lia.
      * destruct Hcase as [(_ & _ & _ & _ & Hat & _)|(_ & d & _ & _ & _ & _ & _ & _ & -> & Hlt)];
          simpl in *; lia.
      * intros tid Hid. simpl.
        destruct Hcase as [(_ & _ & Hid' & _)|(_ & d & _ & Hn & _ & Hid' & _)];
          rewrite Hid' in Hid.
        -- simpl in Hid. specialize (H5 tid Hid). lia.
        -- injection Hid as <-. lia.
      * destruct Hcase as [(_ & _ & _ & Hd & _)|(_ & d & _ & _ & _ & _ & -> & Hle & _)];
          [by apply Hd|done].
    + rewrite list_lookup_insert_ne by done. intros Hl0.
      eapply run_ok_later; [by eapply Hr | done].
  - intros tid t. simpl. intros Hti.
    assert (Hold : timers w !! tid = Some t → timer_ok
              (set_runs (<[rid:=r']> (runs w')) w') tid t).
    { intros Hti0. destruct (Ht _ _ Hti0) as [Hf Ho]. split; [simpl; lia|].
      intros rid0 Hc. destruct (Ho _ Hc) as (r0 & Hl0 & Hrest).
      assert (rid0 ≠ rid) by (intros ->; by eapply Hnone).
      exists r0. split; [|done]. simpl. rewrite Hruns.
      by rewrite list_lookup_insert_ne. }
    destruct Hcase as [(_ & _ & Hid & _ & _ & Htm)
                      |(_ & d & Htm & Hn & _ & Hid & Hd & Hle & Hat & Hlt)].
    + (* the run has ended: old timers, and perhaps the navigation *)
      destruct Htm as [[Htm _]|(path & Htm & Hn)]; rewrite Htm in Hti.
      * apply Hold. destruct (timeoutId (settled r)); simpl in Hti; [|done].
        by apply lookup_delete_Some in Hti as [_ ?].
      * apply lookup_insert_Some in Hti as [[<- <-]|[_ Hti]].
        -- split; [simpl; lia|]. intros rid0 Hc. simpl in Hc. discriminate.
        -- apply Hold. destruct (timeoutId (settled r)); simpl in Hti; [|done].
           by apply lookup_delete_Some in Hti as [_ ?].
    + (* the run goes on: old timers, and the one it has just set *)
      rewrite Htm in Hti.
      apply lookup_insert_Some in Hti as [[<- <-]|[_ Hti]]; [|by apply Hold].
      split; [simpl; lia|]. intros rid0 [= <-]. exists r'.
      simpl. rewrite Hruns, list_lookup_insert_eq by done.
      unfold maxAttempts in *. simpl in *. repeat split; try done; lia.
Qed.

Lemma Inv_fire tid w : Inv w → Inv (step w (Fire tid)).
Proof.
  intros [Hr Ht]. simpl.
  destruct (timers w !! tid) as [t|] eqn:Hti; [|done].
  destruct (Ht _ _ Hti) as [Hf Ho].
  destruct (callback_of t) as [rid|path] eqn:Hc.
  - destruct (Ho rid eq_refl) as (r & Hl & Hid & Haw & Hreq & Hat & _).
    unfold checkStatus. simpl. rewrite Hl.
    assert (Hlen : rid < length (runs w)) by (by eapply lookup_lt_Some).
    split.
    + intros rid0 r0. simpl. destruct (decide (rid0 = rid)) as [->|Hne].
      * rewrite list_lookup_insert_eq by done. intros [= <-].
        destruct (Hr _ _ Hl) as [H1 H2 H3 H4 H5 H6].
        split; simpl; try done; lia.
      * rewrite list_lookup_insert_ne by done. intros Hl0.
        eapply run_ok_later; [by eapply Hr | done].
    + intros tid0 t0. simpl. intros [Hne Hti0]%lookup_delete_Some.
      destruct (Ht _ _ Hti0) as [Hf0 Ho0]. split; [done|].
      intros rid0 Hc0. destruct (Ho0 _ Hc0) as (r0 & Hl0 & Hid0 & Hrest).
      assert (rid0 ≠ rid) by (intros ->; simplify_eq).
      exists r0. split; [|done]. simpl. by rewrite list_lookup_insert_ne.
  - split.
    + intros rid0 r0 Hl0. simpl in Hl0.
      eapply run_ok_later; [by eapply Hr | done].
    + intros tid0 t0. simpl. intros [Hne Hti0]%lookup_delete_Some.
      destruct (Ht _ _ Hti0) as [Hf0 Ho0]. by split.
Qed.

Lemma Inv_cancel rid w : Inv w → Inv (step w (Cancel rid)).
Proof.
  intros [Hr Ht]. simpl.
  destruct (runs w !! rid) as [r|] eqn:Hl; [|done].
  split.
  - intros rid0 r0. rewrite cleanup_runs. intros Hl0.
    eapply run_ok_later; [by eapply Hr | by rewrite cleanup_nextTimer].
  - intros tid t. rewrite cleanup_timers. intros Hti.
    assert (timers w !! tid = Some t) as Hti0.
    { destruct (timeoutId r); simpl in Hti; [|done].
      by apply lookup_delete_Some in Hti as [_ ?]. }
    destruct (Ht _ _ Hti0) as [Hf Ho].
    split; [by rewrite cleanup_nextTimer|].
    intros rid0 Hc. rewrite cleanup_runs. by apply Ho.
Qed.

Lemma Inv_step w e : Inv w → Inv (step w e).
Proof.
  destruct e; [apply Inv_call | apply Inv_settle | apply Inv_fire | apply Inv_cancel].
Qed.

Lemma Inv_exec es : ∀ w, Inv w → Inv (exec w es).
Proof.
  induction es as [|e es IH]; intros w Hw; [done|].
  apply IH. by apply Inv_step.
Qed.

Lemma Inv_reachable es : Inv (exec initial es).
Proof. apply Inv_exec, Inv_initial. Qed.

(** *** What a reply does to a run whose request is in flight *)

Lemma cleanup_uploadResult r w : uploadResult (cleanup r w) = uploadResult w.
Proof. unfold cleanup. by destruct (timeoutId r). Qed.

Lemma in_flight_not_sleeping w rid r :
  Inv w → runs w !! rid = Some r → (0 < awaiting r)%Z → ¬ sleeping w rid.
Proof.
  intros [_ Ht] Hl Ha (tid & d & Hti).
  destruct (Ht _ _ Hti) as [_ Ho].
  destruct (Ho rid eq_refl) as (r0 & Hl0 & _ & Haw0 & _). simplify_eq. lia.
Qed.

Lemma settle_in_flight w rid o r :
  Inv w → runs w !! rid = Some r → (0 < awaiting r)%Z →
  ∃ r' w',
    checkStatus_settle rid o (settled r) w = (r', w') ∧
    step w (Settle rid o) = set_runs (<[rid := r']> (runs w)) w' ∧
    awaiting r' = 0%Z ∧ key_of r' = key_of r ∧ requests r' = requests r ∧
    (terminating o r ∧ ends (settled r) w r' w'
     ∨ ¬ terminating o r ∧ goes_on rid (settled r) w r' w').
Proof.
  intros HI Hl Ha.
  destruct (checkStatus_settle rid o (settled r) w) as [r' w'] eqn:Hs.
  destruct (checkStatus_settle_shape _ _ _ _ _ _ Hs)
    as (Hruns & Hkey & Haw & Hreq & Hcase).
  exists r', w'. split; [done|].
  rewrite (step_settle _ _ _ _ Hl Ha), Hs. simpl. rewrite Hruns.
  destruct HI as [Hr _]. destruct (Hr _ _ Hl) as [H1 _ _ _ _ _].
  simpl in *. repeat split; try done; try lia.
Qed.

Lemma ends_not_sleeping w rid r r' w' :
  ¬ sleeping w rid → ends r w r' w' →
  ¬ sleeping (set_runs (<[rid := r']> (runs w)) w') rid.
Proof.
  intros Hns (_ & _ & _ & _ & Htm) (tid & d & Hti). simpl in Hti.
  apply Hns.
  assert (∀ t, from_option (λ tid, delete tid (timers w)) (timers w) (timeoutId r) !! tid
               = Some t → timers w !! tid = Some t) as Hsub.
  { intros t. destruct (timeoutId r); simpl; [|done].
    by intros [_ ?]%lookup_delete_Some. }
  destruct Htm as [[Htm _]|(path & Htm & _)]; rewrite Htm in Hti.
  - exists tid, d. by apply Hsub.
  - apply lookup_insert_Some in Hti as [[_ [=]]|[_ Hti]].
    exists tid, d. by apply Hsub.
Qed.

(** A run whose request has just settled is alive exactly when the
    reply is not one of the five after which [checkStatus] stops; then
    its next request is scheduled, and else [cleanup] has run. *)
Lemma settle_alive w rid o r :
  Inv w → runs w !! rid = Some r → (0 < awaiting r)%Z →
  (alive (step w (Settle rid o)) rid ↔ ¬ terminating o r) ∧
  (terminating o r →
     (key_of r ∉ activePolls (step w (Settle rid o))) ∧
     (∀ tid, timeoutId r = Some tid → timers (step w (Settle rid o)) !! tid = None)) ∧
  (¬ terminating o r →
     ∃ r' d, runs (step w (Settle rid o)) !! rid = Some r' ∧
             attempts r' = (attempts r + 1)%Z ∧ (attempts r < maxAttempts)%Z ∧
             currentDelay r' = d ∧
             timers (step w (Settle rid o)) !! nextTimer w
             = Some {| callback_of := CheckStatus rid; delay_of := d |} ∧
             timeoutId r' = Some (nextTimer w) ∧ awaiting r' = 0%Z).
Proof.
  intros HI Hl Ha.
  destruct (settle_in_flight w rid o r HI Hl Ha)
    as (r' & w' & Hs & -> & Haw & Hkey & Hreq & Hcase).
  assert (Hlen : rid < length (runs w)) by (by eapply lookup_lt_Some).
  assert (Hns : ¬ sleeping w rid) by (by eapply in_flight_not_sleeping).
  assert (Hdead : terminating o r →
            ¬ alive (set_runs (<[rid := r']> (runs w)) w') rid).
  { intros HT [(r0 & Hl0 & Ha0)|Hsl].
    - simpl in Hl0. rewrite list_lookup_insert_eq in Hl0 by done.
      simplify_eq. lia.
    - destruct Hcase as [[_ He]|[Hn _]]; [|done].
      by eapply ends_not_sleeping. }
  assert (Hlive : ¬ terminating o r →
            alive (set_runs (<[rid := r']> (runs w)) w') rid).
  { intros HT. destruct Hcase as [[? _]|[_ (d & Htm & _)]]; [done|].
    right. exists (nextTimer w), d. simpl. rewrite Htm.
    by rewrite lookup_insert_eq. }
  split; [|split].
  - split; [|done]. intros Hal HT. by apply Hdead.
  - intros HT. destruct Hcase as [[_ (Hact & Hid & _ & _ & Htm)]|[Hn _]]; [|done].
    simpl. split.
    + rewrite Hact. simpl. apply not_elem_of_difference. right.
      by apply elem_of_singleton.
    + intros tid Hr. simpl in Htm. rewrite Hr in Htm. simpl in Htm.
      destruct HI as [Hrun _]. destruct (Hrun _ _ Hl) as [_ _ _ _ Hh _].
      specialize (Hh _ Hr).
      destruct Htm as [[-> _]|(path & -> & _)].
      * by rewrite lookup_delete_eq.
      * rewrite lookup_insert_ne by lia. by rewrite lookup_delete_eq.
  - intros HT. destruct Hcase as [[? _]|[_ (d & Htm & _ & _ & Hid & Hd & _ & Hat & Hlt)]];
      [done|].
    exists r', d. simpl. rewrite list_lookup_insert_eq by done.
    simpl in Hat, Hlt. repeat split; try done.
    rewrite Htm. by rewrite lookup_insert_eq.
Qed.

(** *** A run driven to its end *)

Lemma deliver_dead w rid o : ¬ alive w rid → deliver rid w o = w.
Proof.
  intros Hd. unfold deliver.
  rewrite step_settle_idle.
  - unfold wake. destruct (runs w !! rid) as [r|]; [|done].
    destruct (timeoutId r) as [tid|]; [|done].
    destruct (timers w !! tid) as [t|] eqn:Hti; [|done].
    case_decide as Hc; [|done]. exfalso. apply Hd. right.
    exists tid, (delay_of t). rewrite Hti. f_equal. destruct t. simpl in *. by subst.
  - intros r Hl. destruct (Z.lt_ge_cases 0 (awaiting r)); [|lia].
    exfalso. apply Hd. left. by exists r.
Qed.

Lemma Inv_deliver w rid o : Inv w → Inv (deliver rid w o).
Proof.
  intros HI. unfold deliver, wake.
  pose proof (Inv_step w (Settle rid o) HI) as HI'.
  destruct (runs (step w (Settle rid o)) !! rid) as [r|]; [|done].
  destruct (timeoutId r) as [tid|]; [|done].
  destruct (timers (step w (Settle rid o)) !! tid) as [t|]; [|done].
  case_decide; [|done]. by apply Inv_step.
Qed.

Lemma wake_sleeping w rid r tid d :
  runs w !! rid = Some r → timeoutId r = Some tid →
  timers w !! tid = Some {| callback_of := CheckStatus rid; delay_of := d |} →
  wake rid w = set_runs (<[rid := sent r]> (runs w)) (clearTimeout tid w).
Proof.
  intros Hl Hid Hti. unfold wake. rewrite Hl. cbv beta iota. rewrite Hid.
  cbv beta iota. rewrite Hti. cbv beta iota. rewrite decide_True by done.
  simpl. rewrite Hti. simpl. unfold checkStatus. simpl. by rewrite Hl.
Qed.

(** One reply either ends the run or leaves it with its next request in
    flight and one more attempt counted. *)
Lemma deliver_progress w rid o r :
  Inv w → runs w !! rid = Some r → (0 < awaiting r)%Z →
  (terminating o r → ¬ alive (deliver rid w o) rid) ∧
  (¬ terminating o r →
     ∃ r', runs (deliver rid w o) !! rid = Some r' ∧ (0 < awaiting r')%Z ∧
           attempts r' = (attempts r + 1)%Z).
Proof.
  intros HI Hl Ha.
  destruct (settle_alive w rid o r HI Hl Ha) as ((Hal & _) & _ & Hgo).
  split.
  - intros HT.
    assert (¬ alive (step w (Settle rid o)) rid) as Hd by (intros Hx; by apply Hal in Hx).
    unfold deliver, wake.
    destruct (runs (step w (Settle rid o)) !! rid) as [r'|]; [|done].
    destruct (timeoutId r') as [tid|]; [|done].
    destruct (timers (step w (Settle rid o)) !! tid) as [t|] eqn:Hti; [|done].
    case_decide as Hc; [|done]. exfalso. apply Hd. right.
    exists tid, (delay_of t). rewrite Hti. f_equal. destruct t. simpl in *. by subst.
  - intros HT. destruct (Hgo HT) as (r' & d & Hl' & Hat & _ & _ & Hti & Hid & Haw).
    unfold deliver. rewrite (wake_sleeping _ _ _ _ _ Hl' Hid Hti).
    exists (sent r'). simpl. rewrite list_lookup_insert_eq by (by eapply lookup_lt_Some).
    repeat split; try done. lia.
Qed.

(** Whatever the replies, a run whose replies arrive and whose timers go
    off is over after at most [61 - attempts] replies. *)
Lemma run_ends (os : list reply) : ∀ w rid r,
  Inv w → runs w !! rid = Some r → (0 < awaiting r)%Z →
  (61 - attempts r ≤ Z.of_nat (length os))%Z →
  ¬ alive (foldl (deliver rid) w os) rid.
Proof.
  induction os as [|o os IH]; intros w rid r HI Hl Ha Hlen.
  - destruct HI as [Hr _]. destruct (Hr _ _ Hl) as [H1 _ _ H4 _ _].
    destruct H4 as [_ ?]; [lia|]. simpl in Hlen. lia.
  - simpl.
    assert (Hdead : ∀ w0, ¬ alive w0 rid → ¬ alive (foldl (deliver rid) w0 os) rid).
    { clear. induction os as [|o' os IH]; intros w0 Hd; [done|].
      simpl. rewrite deliver_dead by done. by apply IH. }
    destruct (deliver_progress w rid o r HI Hl Ha) as [Hend Hgo].
    destruct (settle_in_flight w rid o r HI Hl Ha)
      as (_ & _ & _ & _ & _ & _ & _ & [[HT _]|[HT _]]).
    + by apply Hdead, Hend.
    + destruct (Hgo HT) as (r' & Hl' & Ha' & Hat).
      eapply IH; [by apply Inv_deliver|done|done|].
      rewrite Hat. simpl in Hlen. lia.
Qed.

(** *** Terminal statuses *)

(** C4.  When the status request of a run settles with a status object:
    on [processing_status] "completed" the run stops, the result is the
    success "AI analysis completed!" and a timer of 1500 ms is set that
    navigates to [/document/{documentId}/review]; on "failed" the run
    stops with the error "Document uploaded but AI processing failed.";
    on every other status the run goes on polling as long as the
    attempt limit is not reached, so that below the limit it stops
    exactly on these two statuses. *)
Theorem checkStatus_terminal_status
    (es : list event) (rid : nat) (r : run) (st : ProcessingStatus) :
  let w := exec initial es in
  let w' := step w (Settle rid (Resolved (Some st))) in
  runs w !! rid = Some r → (0 < awaiting r)%Z →
  (processing_status st = Some "completed" →
     ¬ alive w' rid ∧
     uploadResult w' = {| type := Some success; message := "AI analysis completed!" |} ∧
     timers w' !! nextTimer w
     = Some {| callback_of := Navigate ("/document/" +:+ documentId r +:+ "/review");
               delay_of := 1500 |} ∧
     location (step w' (Fire (nextTimer w)))
     = location w ++ ["/document/" +:+ documentId r +:+ "/review"]) ∧
  (processing_status st = Some "failed" →
     ¬ alive w' rid ∧
     uploadResult w' = {| type := Some error;
                          message := "Document uploaded but AI processing failed." |}) ∧
  (processing_status st ≠ Some "completed" →
   processing_status st ≠ Some "failed" →
     (alive w' rid ↔ (attempts r < maxAttempts)%Z)) ∧
  ((attempts r < maxAttempts)%Z →
     (¬ alive w' rid ↔
      processing_status st = Some "completed" ∨ processing_status st = Some "failed")).
Proof.
  intros w w' Hl Ha.
  pose proof (Inv_reachable es) as HI. fold w in HI.
  destruct (settle_alive w rid (Resolved (Some st)) r HI Hl Ha) as ((Hal & Hal') & _).
  fold w' in Hal, Hal'. simpl in Hal, Hal'.
  assert (Hw' : w' = set_runs
            (<[rid := (checkStatus_settle rid (Resolved (Some st)) (settled r) w).1]>
               (runs (checkStatus_settle rid (Resolved (Some st)) (settled r) w).2))
            (checkStatus_settle rid (Resolved (Some st)) (settled r) w).2)
    by (by apply step_settle).
  repeat split.
  - intros Hx. apply Hal in Hx. apply Hx. by left.
  - rewrite Hw'. unfold checkStatus_settle.
    rewrite bool_decide_eq_true_2 by done. simpl. by rewrite cleanup_uploadResult.
  - rewrite Hw'. unfold checkStatus_settle.
    rewrite bool_decide_eq_true_2 by done. simpl.
    rewrite cleanup_nextTimer. simpl. by rewrite lookup_insert_eq.
  - rewrite Hw'. unfold checkStatus_settle.
    rewrite bool_decide_eq_true_2 by done. simpl.
    rewrite cleanup_nextTimer. simpl. rewrite lookup_insert_eq. simpl.
    unfold cleanup. simpl. by destruct (timeoutId r).
  - intros Hx. apply Hal in Hx. apply Hx. right. by left.
  - rewrite Hw'. unfold checkStatus_settle.
    destruct (decide (processing_status st = Some "completed")) as [Hc|Hc];
      [congruence|].
    rewrite (bool_decide_eq_false_2 _ Hc), bool_decide_eq_true_2 by done.
    simpl. by rewrite cleanup_uploadResult.
  - intros Hx. apply Hal in Hx. unfold maxAttempts in *.
    destruct (Z.lt_ge_cases (attempts r) 60); [done|]. exfalso. apply Hx. tauto.
  - intros Hx. apply Hal'. unfold maxAttempts in *. intros [?|[?|?]]; try done. lia.
  - intros Hx.
    destruct (decide (processing_status st = Some "completed")); [by left|].
    destruct (decide (processing_status st = Some "failed")); [by right|].
    exfalso. apply Hx, Hal'. unfold maxAttempts in *. intros [?|[?|?]]; try done. lia.
  - intros Hx Hy. apply Hal in Hy. apply Hy. tauto.
Qed.

Lemma checkStatus_terminal_status_witness :
  ¬ alive (exec initial
             [Call "doc" "task";
              Settle 0 (Resolved (Some {| processing_status := Some "completed" |}))]) 0.
Proof.
  destruct (checkStatus_terminal_status [Call "doc" "task"] 0 (fresh_run "doc" "task")
              {| processing_status := Some "completed" |})
    as (H & _); [vm_compute; reflexivity | vm_compute; reflexivity |].
  apply H. reflexivity.
Defined.

(** *** The attempt limit *)

Lemma step_settle_uploadResult w rid o r :
  runs w !! rid = Some r → (0 < awaiting r)%Z →
  uploadResult (step w (Settle rid o))
  = uploadResult (checkStatus_settle rid o (settled r) w).2.
Proof. intros Hl Ha. by rewrite (step_settle _ _ _ _ Hl Ha). Qed.

(** C6.  In every world the events can produce, no run has sent more than
    61 status requests.  When the request of a run settles, the run goes
    on only by incrementing its one [attempts] counter, which was below
    [maxAttempts = 60]; at the limit the run stops, with the result
    "Processing timeout. Please check back later." when the reply was a
    status still in progress; and a failure other than 429 met with three
    or more attempts stops the run with the result "Unable to check
    processing status. Please refresh the page.".  Whatever the replies
    are, a run with a request in flight is over once [61 - attempts]
    replies have been delivered to it. *)
Theorem pollProcessingStatus_bounded (es : list event) :
  let w := exec initial es in
  (∀ rid r, runs w !! rid = Some r → (requests r ≤ 61)%Z) ∧
  (∀ rid r o, runs w !! rid = Some r → (0 < awaiting r)%Z →
     let w' := step w (Settle rid o) in
     (alive w' rid →
        (attempts r < maxAttempts)%Z ∧
        ∃ r', runs w' !! rid = Some r' ∧ attempts r' = (attempts r + 1)%Z) ∧
     ((maxAttempts ≤ attempts r)%Z → ¬ alive w' rid) ∧
     ((maxAttempts ≤ attempts r)%Z →
        ∀ st, o = Resolved (Some st) →
              processing_status st ≠ Some "completed" →
              processing_status st ≠ Some "failed" →
              uploadResult w' = {| type := Some error;
                                   message := "Processing timeout. Please check back later." |}) ∧
     ((3 ≤ attempts r)%Z →
        ∀ status, o = Rejected status → status ≠ Some 429%Z →
                  ¬ alive w' rid ∧
                  uploadResult w' = {| type := Some error;
                                       message := "Unable to check processing status. Please refresh the page." |})) ∧
  (∀ rid r (os : list reply), runs w !! rid = Some r → (0 < awaiting r)%Z →
     (61 - attempts r ≤ Z.of_nat (length os))%Z →
     ¬ alive (foldl (deliver rid) w os) rid).
Proof.
  intros w. pose proof (Inv_reachable es) as HI. fold w in HI. split; [|split].
  - intros rid r Hl. destruct HI as [Hr _]. destruct (Hr _ _ Hl). lia.
  - intros rid r o Hl Ha w'.
    destruct (settle_alive w rid o r HI Hl Ha) as ((Hal & Hal') & _ & Hgo).
    fold w' in Hal, Hal', Hgo.
    repeat split.
    + apply Hal in H. by destruct (Hgo H) as (r' & d & _ & _ & ? & _).
    + apply Hal in H. destruct (Hgo H) as (r' & d & ? & ? & _). by exists r'.
    + intros Hlim Hx. apply Hal in Hx. apply Hx.
      unfold terminating, maxAttempts in *. destruct o as [[st|]|status];
        repeat case_decide; first [lia | tauto].
    + intros Hlim st -> Hc Hf. unfold w'.
      rewrite (step_settle_uploadResult _ _ _ _ Hl Ha). unfold checkStatus_settle.
      rewrite !bool_decide_eq_false_2 by done. simpl.
      destruct (Z.ltb_spec (attempts r) maxAttempts); [lia|].
      unfold cleanup; simpl. by destruct (timeoutId r).
    + intros Hx. apply Hal in Hx. apply Hx. subst o. unfold terminating.
      by rewrite decide_False.
    + subst o. unfold w'.
      rewrite (step_settle_uploadResult _ _ _ _ Hl Ha). unfold checkStatus_settle, caught.
      rewrite bool_decide_eq_false_2 by done. simpl.
      destruct (Z.ltb_spec (attempts r) 3); [lia|].
      unfold cleanup; simpl. by destruct (timeoutId r).
  - intros rid r os Hl Ha Hlen. by eapply run_ends.
Qed.

Lemma pollProcessingStatus_bounded_witness :
  ¬ alive (exec initial
             [Call "doc" "task"; Settle 0 (Rejected None); Fire 1;
              Settle 0 (Rejected None); Fire 2; Settle 0 (Rejected None); Fire 3;
              Settle 0 (Rejected (Some 500%Z))]) 0.
Proof.
  destruct (pollProcessingStatus_bounded
              [Call "doc" "task"; Settle 0 (Rejected None); Fire 1;
               Settle 0 (Rejected None); Fire 2; Settle 0 (Rejected None); Fire 3])
    as (_ & H & _).
  destruct (H 0 {| documentId := "doc"; taskId := "task"; attempts := 3;
                   currentDelay := 16875000 # 1000; timeoutId := Some 3;
                   awaiting := 1; requests := 4 |}
              (Rejected (Some 500%Z))) as (_ & _ & _ & H3);
    [vm_compute; reflexivity | vm_compute; reflexivity |].
  apply (H3 ltac:(vm_compute; discriminate) (Some 500%Z) eq_refl ltac:(discriminate)).
Defined.

(** *** Cleanup at the end of a run *)

(** C9.  When the request of a run settles, the run stops exactly on the
    five terminating replies listed in [terminating]; on each of them
    [cleanup] has run: the key of the run is no longer registered, the
    timer the run remembered is not pending and no timer will call its
    [checkStatus]; and a call for the same document and task is then not
    deduplicated: it registers the key again and starts a run of its own
    with a first request in flight. *)
Theorem pollProcessingStatus_cleans_up (es : list event) (rid : nat) (r : run) (o : reply) :
  let w := exec initial es in
  let w' := step w (Settle rid o) in
  runs w !! rid = Some r → (0 < awaiting r)%Z →
  (¬ alive w' rid ↔ terminating o r) ∧
  (terminating o r →
     (key_of r ∉ activePolls w') ∧
     (∀ tid, timeoutId r = Some tid → timers w' !! tid = None) ∧
     ¬ sleeping w' rid ∧
     ∃ w'', pollProcessingStatus (documentId r) (taskId r) w' = (Some (length (runs w')), w'') ∧
            (key_of r ∈ activePolls w'') ∧
            runs w'' !! length (runs w') = Some (fresh_run (documentId r) (taskId r)) ∧
            alive w'' (length (runs w'))).
Proof.
  intros w w' Hl Ha.
  pose proof (Inv_reachable es) as HI. fold w in HI.
  destruct (settle_alive w rid o r HI Hl Ha) as ((Hal & Hal') & Hend & _).
  fold w' in Hal, Hal', Hend.
  assert (Hdec : terminating o r ∨ ¬ terminating o r).
  { destruct (settle_in_flight w rid o r HI Hl Ha) as (? & ? & _ & _ & _ & _ & _ & [[? _]|[? _]]);
      tauto. }
  split.
  - split; [|intros HT Hx; by apply Hal in Hx].
    intros Hx. destruct Hdec as [?|Hn]; [done|]. by apply Hal' in Hn.
  - intros HT. destruct (Hend HT) as [Hkey Htid].
    split; [done|]. split; [done|]. split.
    { intros Hs. apply (Hal (or_intror Hs)), HT. }
    eexists. split; [by apply poll_unregistered|]. simpl. split; [|split].
    + apply elem_of_union. left. by apply elem_of_singleton.
    + by rewrite lookup_app_r, Nat.sub_diag.
    + left. exists (fresh_run (documentId r) (taskId r)). simpl.
      by rewrite lookup_app_r, Nat.sub_diag.
Qed.

Lemma pollProcessingStatus_cleans_up_witness :
  pollKey "doc" "task" ∉
  activePolls (exec initial
     [Call "doc" "task";
      Settle 0 (Resolved (Some {| processing_status := Some "failed" |}))]).
Proof.
  destruct (pollProcessingStatus_cleans_up [Call "doc" "task"] 0 (fresh_run "doc" "task")
              (Resolved (Some {| processing_status := Some "failed" |})))
    as (_ & H); [vm_compute; reflexivity | vm_compute; reflexivity |].
  apply H. right. by left.
Defined.

(** *** Delays are whole eighths of a millisecond *)

Lemma scale_cases a : (0 ≤ a)%Z →
  (a = 0%Z ∧ scale a = 1%Q) ∨ (a = 1%Z ∧ scale a = 2%Q) ∨
  (a = 2%Z ∧ scale a = 4%Q) ∨ ((3 ≤ a)%Z ∧ scale a = 8%Q).
Proof.
  intros Ha. unfold scale.
  destruct (Z.le_gt_cases 3 a).
  - right. right. right. split; [done|]. by rewrite Z.min_r.
  - rewrite Z.min_l by lia.
    assert (a = 0 ∨ a = 1 ∨ a = 2)%Z as [->|[->| ->]] by lia; auto.
Qed.

Lemma exactly_next a q : exactly a q → exactly (a + 1) q.
Proof.
  intros [Ha [n Hn]]. split; [lia|].
  destruct (scale_cases a Ha) as [[-> Hs]|[[-> Hs]|[[-> Hs]|[H3 Hs]]]];
    rewrite Hs in Hn.
  - exists (2 * n)%Z. rewrite inject_Z_mult. change (inject_Z 2) with 2%Q.
    change (scale (0+1)) with 2%Q. lra.
  - exists (2 * n)%Z. rewrite inject_Z_mult. change (inject_Z 2) with 2%Q.
    change (scale (1+1)) with 4%Q. lra.
  - exists (2 * n)%Z. rewrite inject_Z_mult. change (inject_Z 2) with 2%Q.
    change (scale (2+1)) with 8%Q. lra.
  - exists n. destruct (scale_cases (a+1)) as [[? _]|[[? _]|[[? _]|[_ ->]]]]; try lia. done.
Qed.

Lemma exactly_int a (k : Z) : (0 ≤ a)%Z → exactly a (inject_Z k).
Proof.
  intros Ha. split; [done|]. unfold scale. exists (k * 2 ^ Z.min a 3)%Z.
  by rewrite inject_Z_mult.
Qed.

Lemma exactly_min a q (k : Z) : exactly a q → exactly a (Qmin q (inject_Z k)).
Proof.
  intros Hq. destruct (Q.min_spec q (inject_Z k)) as [[_ H]|[_ H]].
  - destruct Hq as [Ha [n Hn]]. split; [done|]. exists n. by rewrite H.
  - destruct Hq as [Ha _]. destruct (exactly_int a k Ha) as [_ [n Hn]].
    split; [done|]. exists n. by rewrite H.
Qed.

Lemma exactly_double a q : exactly a q → exactly a (q * 2).
Proof.
  intros [Ha [n Hn]]. split; [done|]. exists (2 * n)%Z.
  rewrite inject_Z_mult. change (inject_Z 2) with 2%Q. rewrite <- Hn. ring.
Qed.

Lemma exactly_three_halves a q : (a < 3)%Z → exactly a q → exactly (a + 1) (q * 1.5).
Proof.
  intros Hlt [Ha [n Hn]]. split; [lia|]. exists (3 * n)%Z.
  rewrite inject_Z_mult. change (inject_Z 3) with 3%Q.
  assert (a = 0 ∨ a = 1 ∨ a = 2)%Z as [->|[->| ->]] by lia.
  - change (scale (0+1)) with 2%Q. change (scale 0) with 1%Q in Hn. lra.
  - change (scale (1+1)) with 4%Q. change (scale 1) with 2%Q in Hn. lra.
  - change (scale (2+1)) with 8%Q. change (scale 2) with 4%Q in Hn. lra.
Qed.

Lemma exactly_eighths a q : exactly a q → ∃ n : Z, (q * 8 == inject_Z n)%Q.
Proof.
  intros [Ha [n Hn]].
  destruct (scale_cases a Ha) as [[-> Hs]|[[-> Hs]|[[-> Hs]|[H3 Hs]]]];
    rewrite Hs in Hn.
  - exists (8 * n)%Z. rewrite inject_Z_mult. change (inject_Z 8) with 8%Q. lra.
  - exists (4 * n)%Z. rewrite inject_Z_mult. change (inject_Z 4) with 4%Q. lra.
  - exists (2 * n)%Z. rewrite inject_Z_mult. change (inject_Z 2) with 2%Q. lra.
  - by exists n.
Qed.

Lemma checkStatus_settle_exact rid o r w :
  exact_run r → exact_run (checkStatus_settle rid o r w).1.
Proof.
  unfold exact_run, checkStatus_settle, caught, again, setTimeout. intros Hr.
  pose proof (exactly_next _ _ Hr) as Hnext.
  pose proof (exactly_next _ _ (exactly_min _ _ 30000 (exactly_double _ _ Hr))) as H429.
  assert (exactly (attempts r + 1) 5000) as Hreset.
  { destruct Hr as [Ha _]. apply (exactly_int _ 5000). lia. }
  destruct o as [[st|]|status]; simpl;
    repeat case_bool_decide; simpl;
    repeat match goal with
           | |- context [(?a <? ?b)%Z] => destruct (Z.ltb_spec a b); simpl
           end;
    try done.
  all: apply (exactly_min _ _ 30000), exactly_three_halves; done.
Qed.

Lemma exact_step w e :
  (∀ rid r, runs w !! rid = Some r → exact_run r) →
  (∀ rid r, runs (step w e) !! rid = Some r → exact_run r).
Proof.
  intros Hw rid r. destruct e as [d t|rid0 o|tid|rid0]; simpl.
  - destruct (decide (pollKey d t ∈ activePolls w)) as [Hin|Hin].
    + rewrite poll_registered by done. apply Hw.
    + rewrite poll_unregistered by done. simpl.
      intros [Hl|[_ Hl]]%lookup_app_Some; [by eapply Hw|].
      destruct (rid - length (runs w)) as [|k]; simpl in Hl;
        [|by rewrite lookup_nil in Hl].
      injection Hl as <-. apply (exactly_int 0 5000). lia.
  - destruct (runs w !! rid0) as [r0|] eqn:Hl0; [|apply Hw].
    destruct (0 <? awaiting r0)%Z; [|apply Hw].
    pose proof (checkStatus_settle_exact rid0 o (settled r0) w (Hw _ _ Hl0)) as Hex.
    destruct (checkStatus_settle rid0 o (settled r0) w) as [r' w'] eqn:Hs.
    destruct (checkStatus_settle_shape _ _ _ _ _ _ Hs) as (Hruns & _).
    simpl. rewrite Hruns. destruct (decide (rid = rid0)) as [->|Hne].
    + rewrite list_lookup_insert_eq by (by eapply lookup_lt_Some). by intros [= <-].
    + rewrite list_lookup_insert_ne by done. apply Hw.
  - destruct (timers w !! tid) as [t|]; [|apply Hw].
    destruct (callback_of t) as [rid0|path]; [|apply Hw].
    unfold checkStatus. simpl. destruct (runs w !! rid0) as [r0|] eqn:Hl0; [|apply Hw].
    simpl. destruct (decide (rid = rid0)) as [->|Hne].
    + rewrite list_lookup_insert_eq by (by eapply lookup_lt_Some).
      intros [= <-]. by apply (Hw _ _ Hl0).
    + rewrite list_lookup_insert_ne by done. apply Hw.
  - destruct (runs w !! rid0) as [r0|]; [|apply Hw].
    rewrite cleanup_runs. apply Hw.
Qed.

(** In every world the events can produce, every delay of the poller is
    a whole number of eighths of a millisecond (and at most 30000 ms, by
    the invariant): the rational arithmetic of the model is the arithmetic
    of the doubles of the source. *)
Lemma delays_exact es rid r :
  runs (exec initial es) !! rid = Some r →
  ∃ n : Z, (currentDelay r * 8 == inject_Z n)%Q.
Proof.
  intros Hl. apply (exactly_eighths (attempts r)).
  assert (∀ es w, (∀ rid r, runs w !! rid = Some r → exact_run r) →
                  ∀ rid r, runs (exec w es) !! rid = Some r → exact_run r) as Hgen.
  { clear. induction es as [|e es IH]; intros w Hw; [done|].
    simpl. apply IH. by apply exact_step. }
  apply (Hgen es initial) with rid; [|done].
  intros rid0 r0 H. simpl in H. by rewrite lookup_nil in H.
Qed.

(** *** Deduplication *)

(** The guard: a call for a key that is registered returns [undefined]
    and changes nothing; no request is sent and no run is created. *)
Lemma pollProcessingStatus_guard d t w :
  pollKey d t ∈ activePolls w →
  pollProcessingStatus d t w = (None, w) ∧ step w (Call d t) = w.
Proof. intros H. simpl. by rewrite poll_registered. Qed.

Lemma deduplicated_kept w w' :
  deduplicated w →
  (∀ rid r', runs w' !! rid = Some r' → alive w' rid →
     ∃ r, runs w !! rid = Some r ∧ key_of r = key_of r' ∧ alive w rid ∧
          key_of r ∈ activePolls w') →
  deduplicated w'.
Proof.
  intros [HA HB] Hk. split.
  - intros rid r' Hl Hal. destruct (Hk _ _ Hl Hal) as (r & _ & <- & _ & ?). done.
  - intros rid1 rid2 r1 r2 Hl1 Hl2 Hal1 Hal2 Hkey.
    destruct (Hk _ _ Hl1 Hal1) as (r1' & ? & Hk1 & ? & _).
    destruct (Hk _ _ Hl2 Hal2) as (r2' & ? & Hk2 & ? & _).
    eapply HB; try done. congruence.
Qed.

Lemma deduplicated_call d t w :
  deduplicated w → deduplicated (step w (Call d t)).
Proof.
  intros [HA HB]. simpl.
  destruct (decide (pollKey d t ∈ activePolls w)) as [Hin|Hin].
  { by rewrite poll_registered. }
  rewrite poll_unregistered by done. simpl.
  set (w' := set_runs _ _).
  assert (Hold : ∀ rid r, runs w !! rid = Some r → alive w' rid → alive w rid).
  { intros rid r Hl [(r0 & Hl0 & Ha0)|Hs]; [|by right].
    left. exists r. split; [done|]. simpl in Hl0.
    rewrite (lookup_app_l_Some _ _ _ _ Hl) in Hl0. by simplify_eq. }
  assert (Hnew : ∀ rid r, (runs w ++ [fresh_run d t]) !! rid = Some r →
            runs w !! rid = Some r ∨ rid = length (runs w) ∧ r = fresh_run d t).
  { intros rid r [?|[Hge Hl]]%lookup_app_Some; [by left|right].
    destruct (rid - length (runs w)) as [|k] eqn:Hk; simpl in Hl;
      [|by rewrite lookup_nil in Hl].
    split; [lia|congruence]. }
  split.
  - intros rid r Hl Hal. simpl in Hl. simpl.
    destruct (Hnew _ _ Hl) as [Hl0|[-> ->]].
    + apply elem_of_union. right. eapply HA; [done|]. by eapply Hold.
    + apply elem_of_union. left. by apply elem_of_singleton.
  - intros rid1 rid2 r1 r2 Hl1 Hl2 Hal1 Hal2 Hkey. simpl in Hl1, Hl2.
    destruct (Hnew _ _ Hl1) as [Hl1'|[-> ->]], (Hnew _ _ Hl2) as [Hl2'|[-> ->]];
      try done.
    + eapply HB; try done; by eapply Hold.
    + exfalso. apply Hin. change (pollKey d t) with (key_of (fresh_run d t)).
      rewrite <- Hkey. eapply HA; [done|]. by eapply Hold.
    + exfalso. apply Hin. change (pollKey d t) with (key_of (fresh_run d t)).
      rewrite Hkey. eapply HA; [done|]. by eapply Hold.
Qed.

Lemma deduplicated_settle rid o w :
  Inv w → deduplicated w → deduplicated (step w (Settle rid o)).
Proof.
  intros HI HD.
  destruct (runs w !! rid) as [r|] eqn:Hl;
    [|rewrite step_settle_idle; [done|intros ? ?; congruence]].
  destruct (Z.lt_ge_cases 0 (awaiting r)) as [Ha|Ha];
    [|rewrite step_settle_idle; [done|intros ? ?; simplify_eq; lia]].
  destruct (settle_alive w rid o r HI Hl Ha) as ((Hal & _) & _ & _).
  destruct (settle_in_flight w rid o r HI Hl Ha)
    as (r' & w' & Hs & Hw & Haw & Hkey & Hreq & Hcase).
  rewrite Hw in Hal |- *.
  assert (Hlen : rid < length (runs w)) by (by eapply lookup_lt_Some).
  assert (Hrid : alive w rid) by (left; by exists r).
  assert (Hother : ∀ rid0, rid0 ≠ rid →
            alive (set_runs (<[rid := r']> (runs w)) w') rid0 → alive w rid0).
  { intros rid0 Hne [(r0 & Hl0 & Ha0)|(tid & d & Hti)].
    - left. exists r0. simpl in Hl0. by rewrite list_lookup_insert_ne in Hl0.
    - right. exists tid, d. simpl in Hti.
      assert (∀ t, from_option (λ tid, delete tid (timers w)) (timers w)
                     (timeoutId (settled r)) !! tid = Some t →
                   timers w !! tid = Some t) as Hsub.
      { intros t. destruct (timeoutId (settled r)); simpl; [|done].
        by intros [_ ?]%lookup_delete_Some. }
      destruct Hcase as [[_ (_ & _ & _ & _ & [[Htm _]|(path & Htm & _)])]
                        |[_ (d' & Htm & _)]]; rewrite Htm in Hti.
      + by apply Hsub.
      + apply lookup_insert_Some in Hti as [[_ [=]]|[_ Hti]]. by apply Hsub.
      + apply lookup_insert_Some in Hti as [[_ [=]]|[_ Hti]]; [congruence|done]. }
  apply (deduplicated_kept w); [done|].
  destruct HD as [HA HB].
  intros rid0 r0 Hl0 Hal0. simpl in Hl0.
  destruct (decide (rid0 = rid)) as [->|Hne].
  - rewrite list_lookup_insert_eq in Hl0 by done. simplify_eq.
    exists r. repeat split; try done.
    destruct Hcase as [[HT _]|[_ (d & _ & _ & Hact & _)]]; [by apply Hal in Hal0|].
    simpl. rewrite Hact. by eapply HA.
  - rewrite list_lookup_insert_ne in Hl0 by done.
    exists r0. repeat split; try done; [by apply Hother|].
    simpl.
    destruct Hcase as [[_ (Hact & _)]|[_ (d & _ & _ & Hact & _)]]; rewrite Hact.
    + apply elem_of_difference. split; [eapply HA; [done|by apply Hother]|].
      intros Heq%elem_of_singleton. apply Hne.
      eapply HB; try done. by apply Hother.
    + eapply HA; [done|by apply Hother].
Qed.

Lemma deduplicated_fire tid w :
  Inv w → deduplicated w → deduplicated (step w (Fire tid)).
Proof.
  intros [Hr Ht] HD. simpl.
  destruct (timers w !! tid) as [t|] eqn:Hti; [|done].
  destruct (Ht _ _ Hti) as [_ Ho].
  destruct (callback_of t) as [rid|path] eqn:Hc.
  - destruct (Ho rid eq_refl) as (r & Hl & _).
    unfold checkStatus. simpl. rewrite Hl.
    assert (Hlen : rid < length (runs w)) by (by eapply lookup_lt_Some).
    assert (Hrid : alive w rid).
    { right. exists tid, (delay_of t). rewrite Hti. f_equal. destruct t. simpl in *.
      by subst. }
    apply (deduplicated_kept w); [done|].
    destruct HD as [HA HB].
    intros rid0 r0 Hl0 Hal0. simpl in Hl0.
    destruct (decide (rid0 = rid)) as [->|Hne].
    + rewrite list_lookup_insert_eq in Hl0 by done. simplify_eq.
      exists r. repeat split; try done. simpl. by eapply HA.
    + rewrite list_lookup_insert_ne in Hl0 by done.
      assert (alive w rid0).
      { destruct Hal0 as [(r1 & Hl1 & Ha1)|(tid1 & d & Hti1)].
        - left. exists r1. simpl in Hl1. by rewrite list_lookup_insert_ne in Hl1.
        - right. exists tid1, d. simpl in Hti1.
          by apply lookup_delete_Some in Hti1 as [_ ?]. }
      exists r0. repeat split; try done. simpl. by eapply HA.
  - apply (deduplicated_kept w); [done|].
    destruct HD as [HA HB].
    intros rid0 r0 Hl0 Hal0. simpl in Hl0.
    assert (alive w rid0).
    { destruct Hal0 as [(r1 & Hl1 & Ha1)|(tid1 & d & Hti1)].
      - left. by exists r1.
      - right. exists tid1, d. simpl in Hti1.
        by apply lookup_delete_Some in Hti1 as [_ ?]. }
    exists r0. repeat split; try done. simpl. by eapply HA.
Qed.

(** As long as no returned [cleanup] is invoked from outside, at most one
    run per key is alive, and its key is registered. *)
Lemma deduplicated_without_cancel es :
  forallb (λ e, negb (is_cancel e)) es = true →
  deduplicated (exec initial es).
Proof.
  assert (∀ w, Inv w → deduplicated w →
               forallb (λ e, negb (is_cancel e)) es = true →
               deduplicated (exec w es)) as Hgen.
  { induction es as [|e es IH]; intros w HI HD Hes; [done|].
    simpl in Hes. apply andb_prop in Hes as [He Hes].
    simpl. apply IH; [by apply Inv_step| |done].
    destruct e; simpl in He; try done.
    - by apply deduplicated_call.
    - by apply deduplicated_settle.
    - by apply deduplicated_fire. }
  apply Hgen; [apply Inv_initial|].
  split.
  - intros rid r Hl. simpl in Hl. by rewrite lookup_nil in Hl.
  - intros rid1 rid2 r1 r2 Hl. simpl in Hl. by rewrite lookup_nil in Hl.
Qed.

(** C1.  The failing run of the deduplication claim.  A poll is started,
    its returned [cleanup] is invoked while the first status request is
    still in flight, and the same document is polled again (a component
    with [useProcessingStatusPoll] that is mounted, unmounted and mounted
    again does just that): [cleanup] unregisters the key but cannot stop
    the request, so the second call passes the guard.  Two runs with the
    one key "doc-task" are then alive, each with a request in flight, and
    when the request of the cancelled run settles that run sets its next
    timer and goes on. *)
Theorem cancelled_poll_is_duplicated :
  let w := exec initial cancel_in_flight in
  remounted "doc" "task" initial = w ∧
  runs w !! 0 = Some (fresh_run "doc" "task") ∧
  runs w !! 1 = Some (fresh_run "doc" "task") ∧
  key_of (fresh_run "doc" "task") = "doc-task" ∧
  alive w 0 ∧ alive w 1 ∧
  ¬ deduplicated w ∧
  sleeping (step w (Settle 0 in_progress)) 0.
Proof.
  assert (Hal0 : alive (exec initial cancel_in_flight) 0).
  { left. exists (fresh_run "doc" "task"). split; [vm_compute; reflexivity|done]. }
  assert (Hal1 : alive (exec initial cancel_in_flight) 1).
  { left. exists (fresh_run "doc" "task"). split; [vm_compute; reflexivity|done]. }
  simpl. repeat split; try done.
  - intros [_ HB].
    specialize (HB 0 1 (fresh_run "doc" "task") (fresh_run "doc" "task")).
    discriminate HB; try done; vm_compute; reflexivity.
  - exists 1, 5000%Q. vm_compute. reflexivity.
Qed.
End PollerFacts.


(** ** Facts about the processing queue *)

Section QueueFacts.
Import Js QueueUtils ProcessingQueue.



Lemma clearPollTimer_timers c :
  (∀ tid t, timers c !! tid = Some t → pollTimer c = Some tid) →
  timers (clearPollTimer c) = ∅.
Proof.
  intros H. apply map_eq. intros tid. rewrite lookup_empty.
  unfold clearPollTimer. destruct (pollTimer c) as [p|] eqn:Hp; simpl.
  - apply lookup_delete_None. destruct (timers c !! tid) as [t|] eqn:Ht; [|by right].
    left. specialize (H _ _ Ht). congruence.
  - destruct (timers c !! tid) as [t|] eqn:Ht; [|done]. by specialize (H _ _ Ht).
Qed.

(** The effect leaves exactly the refresh it has just set, if any. *)
Lemma adaptivePolling_timers c :
  (∀ tid t, timers c !! tid = Some t → pollTimer c = Some tid) →
  timers (adaptivePolling c)
  = if hasActiveDocs (documents c)
    then {[ nextTimer c := {| delay_of := pollDelay c; token_of := token c |} ]}
    else ∅.
Proof.
  intros H. unfold adaptivePolling.
  assert (documents (clearPollTimer c) = documents c ∧
          nextTimer (clearPollTimer c) = nextTimer c ∧
          pollDelay (clearPollTimer c) = pollDelay c ∧
          token (clearPollTimer c) = token c) as (-> & -> & -> & ->).
  { unfold clearPollTimer. by destruct (pollTimer c). }
  destruct (hasActiveDocs (documents c)); simpl;
    by rewrite clearPollTimer_timers.
Qed.

Lemma adaptivePolling_ok c :
  (∀ tid t, timers c !! tid = Some t → pollTimer c = Some tid) →
  (∀ tid, pollTimer c = Some tid → tid < nextTimer c) →
  (pollDelay c <= 300000)%Q →
  queue_ok (adaptivePolling c).
Proof.
  intros H1 H2 H3.
  pose proof (adaptivePolling_timers c H1) as Htm.
  unfold adaptivePolling in *.
  assert (documents (clearPollTimer c) = documents c ∧
          nextTimer (clearPollTimer c) = nextTimer c ∧
          pollDelay (clearPollTimer c) = pollDelay c ∧
          pollTimer (clearPollTimer c) = None) as (Hd & Hn & Hp & Ht).
  { unfold clearPollTimer. by destruct (pollTimer c) eqn:E. }
  rewrite Hd in *. destruct (hasActiveDocs (documents c)) eqn:Hact.
  - split; simpl.
    + intros tid t. rewrite clearPollTimer_timers by done.
      intros [[<- <-]|[_ Hx]]%lookup_insert_Some; [|by rewrite lookup_empty in Hx].
      rewrite Hn, Hd, Hp. simpl. repeat split; try done.
    + intros tid [= <-]. lia.
    + by rewrite Hp.
  - split.
    + intros tid t. rewrite Htm. by rewrite lookup_empty.
    + intros tid. by rewrite Ht.
    + by rewrite Hp.
Qed.

Lemma handleFetchDocuments_frame tok c :
  timers (handleFetchDocuments tok c) = timers c ∧
  pollTimer (handleFetchDocuments tok c) = pollTimer c ∧
  nextTimer (handleFetchDocuments tok c) = nextTimer c ∧
  pollDelay (handleFetchDocuments tok c) = pollDelay c ∧
  documents (handleFetchDocuments tok c) = documents c ∧
  documentsId (handleFetchDocuments tok c) = documentsId c.
Proof. unfold handleFetchDocuments. by destruct (negb (truthy tok)). Qed.

Lemma Qmin_cap q : (Qmin q 300000 <= 300000)%Q.
Proof. apply Q.le_min_r. Qed.

(** What a handler may do to the timers, the delay and the documents. *)
Lemma handle_frame c e :
  queue_ok c →
  (∀ tid t, timers (handle c e) !! tid = Some t →
     timers c !! tid = Some t ∧ pollTimer (handle c e) = Some tid) ∧
  (∀ tid, pollTimer (handle c e) = Some tid → tid < nextTimer (handle c e)) ∧
  (pollDelay (handle c e) <= 300000)%Q ∧
  (documentsId (handle c e) = documentsId c →
     documents (handle c e) = documents c).
Proof.
  intros [H1 H2 H3].
  assert (Hsame : ∀ c', timers c' = timers c → pollTimer c' = pollTimer c →
            ∀ tid t, timers c' !! tid = Some t →
                     timers c !! tid = Some t ∧ pollTimer c' = Some tid).
  { intros c' -> -> tid t Hti. by destruct (H1 _ _ Hti) as (? & _). }
  destruct e as [tok| |tid|r|d ok|]; simpl.
  - destruct (handleFetchDocuments_frame tok (clearPollTimer (set_token tok c)))
      as (-> & -> & -> & -> & -> & ->).
    unfold clearPollTimer. simpl. destruct (pollTimer c) as [p|] eqn:Hp; simpl.
    + split; [|done]. intros tid t [Hne Hti]%lookup_delete_Some.
      destruct (H1 _ _ Hti) as (? & _). congruence.
    + rewrite Hp. split; [|done]. intros tid t Hti.
      destruct (H1 _ _ Hti) as (? & _). congruence.
  - destruct (handleFetchDocuments_frame (token c) c) as (-> & -> & -> & -> & -> & ->).
    split; [by apply Hsame|done].
  - destruct (timers c !! tid) as [t0|] eqn:Hti; [|split; [by apply Hsame|done]].
    unfold onDocumentUpdate. simpl.
    destruct (handleFetchDocuments_frame (token_of t0)
                (set_timers (pollTimer c) (delete tid (timers c)) (nextTimer c) c))
      as (-> & -> & -> & -> & -> & ->). simpl.
    split; [|done]. intros tid0 t [_ Hti0]%lookup_delete_Some.
    by destruct (H1 _ _ Hti0) as (? & _).
  - destruct (0 <? fetching c)%Z; [|split; [by apply Hsame|done]].
    unfold handleFetchDocuments_settle, fetchDocuments_settle.
    destruct r as [b|st]; simpl.
    + split; [by apply Hsame|]. split; [done|]. split; [lra|]. lia.
    + case_bool_decide; simpl; (split; [by apply Hsame|]); (split; [done|]);
        (split; [|done]); [apply Qmin_cap|done].
  - destruct ok; simpl; (split; [by apply Hsame|]); (split; [done|]);
      (split; [done|]); [lia|done].
  - split; [by apply Hsame|done].
Qed.

Lemma queue_ok_step c e : queue_ok c → queue_ok (step c e).
Proof.
  intros Hc. destruct (handle_frame c e Hc) as (Ht & Hp & Hd & Hdocs).
  unfold step. destruct (depsChanged c (handle c e) e) eqn:Hdeps.
  - apply adaptivePolling_ok; try done. intros tid t Hti. by destruct (Ht _ _ Hti).
  - unfold depsChanged in Hdeps.
    apply orb_false_elim in Hdeps as [Hdeps _].
    apply orb_false_elim in Hdeps as [Hid Hq].
    apply negb_false_iff, Nat.eqb_eq in Hid.
    apply negb_false_iff, Qeq_bool_iff in Hq.
    destruct Hc as [H1 H2 H3]. split; try done.
    intros tid t Hti. destruct (Ht _ _ Hti) as [Hti0 Hpt].
    destruct (H1 _ _ Hti0) as (_ & Hact & Hdel).
    rewrite Hdocs by done. repeat split; try done. by rewrite Hdel.
Qed.

Lemma queue_ok_mount tok : queue_ok (mount tok).
Proof.
  unfold mount. apply adaptivePolling_ok.
  - intros tid t.
    destruct (handleFetchDocuments_frame tok
      {| token := tok; documents := []; documentsId := 0; isLoading := false;
         pollDelay := 10000; pollTimer := None; timers := ∅; nextTimer := 1;
         fetching := 0; toasts := []; updates := 0 |}) as (-> & _).
    simpl. by rewrite lookup_empty.
  - intros tid.
    destruct (handleFetchDocuments_frame tok
      {| token := tok; documents := []; documentsId := 0; isLoading := false;
         pollDelay := 10000; pollTimer := None; timers := ∅; nextTimer := 1;
         fetching := 0; toasts := []; updates := 0 |}) as (_ & -> & _).
    done.
  - destruct (handleFetchDocuments_frame tok
      {| token := tok; documents := []; documentsId := 0; isLoading := false;
         pollDelay := 10000; pollTimer := None; timers := ∅; nextTimer := 1;
         fetching := 0; toasts := []; updates := 0 |}) as (_ & _ & _ & -> & _).
    simpl. lra.
Qed.

Lemma queue_ok_exec es : ∀ c, queue_ok c → queue_ok (exec c es).
Proof.
  induction es as [|e es IH]; intros c Hc; [done|].
  apply IH. by apply queue_ok_step.
Qed.

Lemma queue_ok_reachable tok es : queue_ok (exec (mount tok) es).
Proof. apply queue_ok_exec, queue_ok_mount. Qed.



(** *** The gate of the automatic refresh *)


End QueueFacts.

(** ** Back-off and reset of the two delays *)

Section DelayFacts.
Import Js QueueUtils.

(** C2.  A status request of the poller that fails with 429 sets
    [currentDelay] to [min(2 * currentDelay, 30000)], and that is the
    delay of the timer set for the next attempt; in every world the
    events can produce, no run has a delay above 30000 ms and no timer of
    [checkStatus] waits longer.  A fetch of the queue that fails with 429
    sets [pollDelay] to [min(2 * pollDelay, 300000)]; in every state of a
    mounted queue, [pollDelay] and the delay of every pending refresh are
    at most 300000 ms. *)
Theorem rate_limit_backoff :
  (∀ rid r w,
     ProcessingPoller.currentDelay (ProcessingPoller.checkStatus_settle rid
                     (ProcessingPoller.Rejected (Some 429%Z)) r w).1
     = Qmin (ProcessingPoller.currentDelay r * 2) 30000 ∧
     ((ProcessingPoller.attempts r < 60)%Z →
        ProcessingPoller.timers
          (ProcessingPoller.checkStatus_settle rid
             (ProcessingPoller.Rejected (Some 429%Z)) r w).2
        !! ProcessingPoller.nextTimer w
        = Some {| ProcessingPoller.callback_of := ProcessingPoller.CheckStatus rid;
                  ProcessingPoller.delay_of :=
                    Qmin (ProcessingPoller.currentDelay r * 2) 30000 |})) ∧
  (∀ es,
     let w := ProcessingPoller.exec ProcessingPoller.initial es in
     (∀ rid r, ProcessingPoller.runs w !! rid = Some r →
               (ProcessingPoller.currentDelay r <= 30000)%Q) ∧
     (∀ tid rid d,
        ProcessingPoller.timers w !! tid
        = Some {| ProcessingPoller.callback_of := ProcessingPoller.CheckStatus rid;
                  ProcessingPoller.delay_of := d |} →
        (d <= 30000)%Q)) ∧
  (∀ c, ProcessingQueue.pollDelay
          (ProcessingQueue.handleFetchDocuments_settle (Rejected (Some 429%Z)) c)
        = Qmin (ProcessingQueue.pollDelay c * 2) 300000) ∧
  (∀ tok es,
     let c := ProcessingQueue.exec (ProcessingQueue.mount tok) es in
     (ProcessingQueue.pollDelay c <= 300000)%Q ∧
     (∀ tid t, ProcessingQueue.timers c !! tid = Some t →
               (ProcessingQueue.delay_of t <= 300000)%Q)).
Proof.
  split; [|split; [|split]].
  - intros rid r w.
    unfold ProcessingPoller.checkStatus_settle, ProcessingPoller.caught. simpl.
    destruct (Z.ltb_spec (ProcessingPoller.attempts r) ProcessingPoller.maxAttempts);
      simpl; (split; [done|]); intros Hlt.
    + by rewrite lookup_insert_eq.
    + unfold ProcessingPoller.maxAttempts in *. lia.
  - intros es w. destruct (Inv_reachable es) as [Hr Ht]. fold w in Hr, Ht. split.
    + intros rid r Hl. by destruct (Hr _ _ Hl).
    + intros tid rid d Hti. destruct (Ht _ _ Hti) as [_ Ho].
      by destruct (Ho rid eq_refl) as (r & _ & _ & _ & _ & _ & ?).
  - intros c. unfold ProcessingQueue.handleFetchDocuments_settle. simpl. done.
  - intros tok es c. destruct (queue_ok_reachable tok es) as [H1 _ H3].
    fold c in H1, H3. split; [done|].
    intros tid t Hti. destruct (H1 _ _ Hti) as (_ & _ & ->). done.
Qed.

(** The bound of 61 requests is reached: after sixty replies 429 the
    sixty-first request of the run is in flight. *)
Example sixty_one_requests :
  (ProcessingPoller.requests
     <$> ProcessingPoller.runs
           (ProcessingPoller.exec ProcessingPoller.initial rate_limited) !! 0)
  = Some 61%Z.
Proof. vm_compute. reflexivity. Qed.

Lemma rate_limit_backoff_witness :
  ProcessingPoller.timers
    (ProcessingPoller.checkStatus_settle 0 (ProcessingPoller.Rejected (Some 429%Z))
       (fresh_run "doc" "task") ProcessingPoller.initial).2 !! 1
  = Some {| ProcessingPoller.callback_of := ProcessingPoller.CheckStatus 0;
            ProcessingPoller.delay_of := Qmin (5000 * 2) 30000 |}.
Proof.
  destruct rate_limit_backoff as (H & _).
  destruct (H 0 (fresh_run "doc" "task") ProcessingPoller.initial) as (_ & H').
  apply H'. vm_compute. reflexivity.
Defined.

(** C5, as the code has it.  A status request that succeeds with a status
    other than "completed" and "failed" while the attempts are below
    [maxAttempts] resets [currentDelay] to 5000 ms, whatever it was, and
    the next attempt is set to that delay.  (At the attempt limit the run
    stops and the delay is left as it was.)  A fetch of the queue that
    succeeds resets [pollDelay] to 10000 ms. *)
Theorem delay_reset_on_success :
  (∀ rid r w st,
     ProcessingPoller.processing_status st ≠ Some "completed" →
     ProcessingPoller.processing_status st ≠ Some "failed" →
     (ProcessingPoller.attempts r < ProcessingPoller.maxAttempts)%Z →
     ProcessingPoller.currentDelay
       (ProcessingPoller.checkStatus_settle rid
          (ProcessingPoller.Resolved (Some st)) r w).1 = 5000%Q ∧
     ProcessingPoller.timers
       (ProcessingPoller.checkStatus_settle rid
          (ProcessingPoller.Resolved (Some st)) r w).2
     !! ProcessingPoller.nextTimer w
     = Some {| ProcessingPoller.callback_of := ProcessingPoller.CheckStatus rid;
               ProcessingPoller.delay_of := 5000 |}) ∧
  (∀ c b, ProcessingQueue.pollDelay
            (ProcessingQueue.handleFetchDocuments_settle (Resolved b) c) = 10000%Q).
Proof.
  split.
  - intros rid r w st Hc Hf Hlt. unfold ProcessingPoller.checkStatus_settle.
    rewrite !bool_decide_eq_false_2 by done. simpl.
    destruct (Z.ltb_spec (ProcessingPoller.attempts r) ProcessingPoller.maxAttempts);
      [|lia].
    simpl. split; [done|]. by rewrite lookup_insert_eq.
  - intros c b. unfold ProcessingQueue.handleFetchDocuments_settle. by destruct b.
Qed.

Lemma delay_reset_on_success_witness :
  ProcessingPoller.currentDelay
    (ProcessingPoller.checkStatus_settle 0 in_progress
       (ProcessingPoller.set_currentDelay 30000 (fresh_run "doc" "task"))
       ProcessingPoller.initial).1 = 5000%Q.
Proof.
  destruct delay_reset_on_success as (H & _).
  apply (H 0 (ProcessingPoller.set_currentDelay 30000 (fresh_run "doc" "task"))
           ProcessingPoller.initial
           {| ProcessingPoller.processing_status := Some "processing" |});
    [discriminate | discriminate | vm_compute; reflexivity].
Defined.

(** C5 as stated does not hold: after sixty replies 429 in a row the run
    has [attempts = 60] and [currentDelay = 30000]; a reply "processing"
    to its next request ends the run with the time-out result, and the
    delay is still 30000, not 5000. *)
Lemma delay_not_reset_at_limit :
  let w := ProcessingPoller.exec ProcessingPoller.initial rate_limited in
  let w' := ProcessingPoller.step w (ProcessingPoller.Settle 0 in_progress) in
  ∃ r r',
    ProcessingPoller.runs w !! 0 = Some r ∧
    ProcessingPoller.awaiting r = 1%Z ∧
    ProcessingPoller.attempts r = 60%Z ∧
    ProcessingPoller.currentDelay r = 30000%Q ∧
    ProcessingPoller.runs w' !! 0 = Some r' ∧
    ProcessingPoller.currentDelay r' = 30000%Q ∧
    ¬ (ProcessingPoller.currentDelay r' == 5000)%Q ∧
    ProcessingPoller.uploadResult w'
    = {| ProcessingPoller.type := Some ProcessingPoller.error;
         ProcessingPoller.message := "Processing timeout. Please check back later." |}.
Proof.
  do 2 eexists. split; [vm_compute; reflexivity|].
  split; [reflexivity|]. split; [reflexivity|]. split; [reflexivity|].
  split; [vm_compute; reflexivity|].
  split; [reflexivity|]. split; [by vm_compute|]. vm_compute. reflexivity.
Qed.
End DelayFacts.


(** ** The status mappers and the error report of [fetchDocuments] *)

Section UtilsFacts.
Import Js.

Lemma case_of_app status l1 l2 :
  case_of status (l1 ++ l2) = case_of status l1 || case_of status l2.
Proof. destruct status as [s|]; simpl; [apply existsb_app|done]. Qed.

Example queue_mapper_ignores_case :
  QueueUtils.mapApiStatusToDisplayStatus (Some "In_Progress") = QueueUtils.Processing.
Proof. reflexivity. Qed.

Example usage_mapper_ignores_case :
  UsageStatsUtils.mapApiStatusToDisplayStatus (Some "CANCELED") = "Failed".
Proof. reflexivity. Qed.

(** C10.  The two functions named [mapApiStatusToDisplayStatus] are not
    the same function.  On an input that lower-cases to none of its case
    labels (the input [undefined] is one) the mapper of [queueUtils]
    answers "Uploaded" and the mapper of [usagestatsUtils] answers
    "Other"; and the inputs "complete", "finished", "processed" and
    "successful" are "Completed" for [usagestatsUtils] and "Uploaded" for
    [queueUtils]. *)
Theorem status_mappers_diverge :
  (∀ a, case_of (toLowerCase <$> a) queue_labels = false →
        QueueUtils.mapApiStatusToDisplayStatus a = QueueUtils.Uploaded) ∧
  (∀ a, case_of (toLowerCase <$> a) usage_labels = false →
        UsageStatsUtils.mapApiStatusToDisplayStatus a = "Other") ∧
  (QueueUtils.mapApiStatusToDisplayStatus None = QueueUtils.Uploaded ∧
   UsageStatsUtils.mapApiStatusToDisplayStatus None = "Other") ∧
  (∀ s, s ∈ ["complete"; "finished"; "processed"; "successful"] →
        UsageStatsUtils.mapApiStatusToDisplayStatus (Some s) = "Completed" ∧
        QueueUtils.mapApiStatusToDisplayStatus (Some s) = QueueUtils.Uploaded) ∧
  (∃ a, QueueUtils.literal (QueueUtils.mapApiStatusToDisplayStatus a)
        ≠ UsageStatsUtils.mapApiStatusToDisplayStatus a).
Proof.
  split; [|split; [|split; [|split]]].
  - intros a. unfold queue_labels, QueueUtils.mapApiStatusToDisplayStatus.
    rewrite !case_of_app. intros H.
    repeat (apply orb_false_elim in H as [? H]).
    by repeat match goal with Hx : case_of _ _ = false |- _ => rewrite Hx; clear Hx end.
  - intros a. unfold usage_labels, UsageStatsUtils.mapApiStatusToDisplayStatus.
    rewrite !case_of_app. intros H.
    repeat (apply orb_false_elim in H as [? H]).
    by repeat match goal with Hx : case_of _ _ = false |- _ => rewrite Hx; clear Hx end.
  - done.
  - intros s Hs. repeat (apply elem_of_cons in Hs as [->|Hs]; [by vm_compute|]).
    by apply elem_of_nil in Hs.
  - exists None. by vm_compute.
Qed.

Lemma status_mappers_diverge_witness :
  UsageStatsUtils.mapApiStatusToDisplayStatus (Some "Archived") = "Other" ∧
  UsageStatsUtils.mapApiStatusToDisplayStatus (Some "finished") = "Completed".
Proof.
  destruct status_mappers_diverge as (_ & H & _ & H' & _). split.
  - apply H. vm_compute. reflexivity.
  - apply H'. apply elem_of_cons. right. apply elem_of_cons. by left.
Defined.

(** C8.  When the request of [fetchDocuments] fails, the error is thrown
    on to the caller, whatever its status.  The toast "Authentication
    expired. Please log in again." is shown exactly when the status is
    401; the toast "Failed to load documents. Please try again." is shown
    exactly when the status is neither 401 nor 429; and on 429 no toast is
    shown. *)
Theorem fetchDocuments_error_report
    (token : value) (st : http_error) (toasts : list toast) :
  truthy token = true →
  let result := QueueUtils.fetchDocuments token (QueueUtils.Rejected st) toasts in
  result.1 = QueueUtils.Thrown st ∧
  (result.2 = toasts ++ [ToastError "Authentication expired. Please log in again."]
   ↔ st = Some 401%Z) ∧
  (result.2 = toasts ++ [ToastError "Failed to load documents. Please try again."]
   ↔ st ≠ Some 401%Z ∧ st ≠ Some 429%Z) ∧
  (st = Some 429%Z → result.2 = toasts).
Proof.
  intros Htok. unfold QueueUtils.fetchDocuments. rewrite Htok. simpl.
  split; [done|].
  assert (∀ t : toast, toasts ++ [t] ≠ toasts) as Hne.
  { intros t Heq. apply (f_equal length) in Heq. rewrite length_app in Heq.
    simpl in Heq. lia. }
  destruct (decide (st = Some 401%Z)) as [->|H401].
  - rewrite bool_decide_eq_true_2 by done. split; [done|]. split; [|done].
    split; [|tauto]. by intros [=]%app_inv_head.
  - rewrite (bool_decide_eq_false_2 _ H401).
    destruct (decide (st = Some 429%Z)) as [->|H429].
    + rewrite bool_decide_eq_false_2 by tauto.
      split; [split; [intros Heq; symmetry in Heq; by apply Hne in Heq|done]|].
      split; [|done].
      split; [intros Heq; symmetry in Heq; by apply Hne in Heq|tauto].
    + rewrite bool_decide_eq_true_2 by done.
      split; [split; [by intros [=]%app_inv_head|done]|].
      split; [done|]. done.
Qed.

Lemma fetchDocuments_error_report_witness :
  (QueueUtils.fetchDocuments (Some "jwt") (QueueUtils.Rejected (Some 429%Z)) []).2 = [].
Proof.
  destruct (fetchDocuments_error_report (Some "jwt") (Some 429%Z) [] eq_refl)
    as (_ & _ & _ & H).
  by apply H.
Defined.
End UtilsFacts.


(** ** The upload hand-off *)

Section UploadFacts.
Import Js ProcessingPoller FileUpload.

Lemma pollProcessingStatus_uploadResult d t w :
  uploadResult (pollProcessingStatus d t w).2 = uploadResult w.
Proof.
  destruct (decide (pollKey d t ∈ activePolls w)).
  - by rewrite poll_registered.
  - by rewrite poll_unregistered.
Qed.



End UploadFacts.


(** ** Further properties of the poller *)

Section PollerLifeCycle.
Import Js ProcessingPoller.

Lemma step_settle_cases w rid o :
  Inv w →
  step w (Settle rid o) = w ∨
  ∃ r r' w',
    runs w !! rid = Some r ∧ (0 < awaiting r)%Z ∧
    step w (Settle rid o) = set_runs (<[rid := r']> (runs w)) w' ∧
    awaiting r' = 0%Z ∧ key_of r' = key_of r ∧ requests r' = requests r ∧
    (terminating o r ∧ ends (settled r) w r' w'
     ∨ ¬ terminating o r ∧ goes_on rid (settled r) w r' w').
Proof.
  intros HI. destruct (runs w !! rid) as [r|] eqn:Hl;
    [|left; rewrite step_settle_idle; [done|intros ? ?; congruence]].
  destruct (Z.lt_ge_cases 0 (awaiting r)) as [Ha|Ha];
    [|left; rewrite step_settle_idle; [done|intros ? ?; simplify_eq; lia]].
  right. destruct (settle_in_flight w rid o r HI Hl Ha) as (r' & w' & _ & ? & ?).
  by exists r, r', w'.
Qed.

(** The timers left after [cleanup] or after the end of a run are timers
    that were pending before, except for the handle of the run and for a
    new navigation. *)
Lemma ends_timers r w r' w' tid t :
  ends r w r' w' → timers w' !! tid = Some t →
  timers w !! tid = Some t ∧ timeoutId r ≠ Some tid
  ∨ tid = nextTimer w ∧ ∃ path, t = {| callback_of := Navigate path; delay_of := 1500 |}.
Proof.
  intros (_ & _ & _ & _ & Htm) Hti.
  assert (∀ t, from_option (λ tid, delete tid (timers w)) (timers w) (timeoutId r) !! tid
               = Some t → timers w !! tid = Some t ∧ timeoutId r ≠ Some tid) as Hsub.
  { intros t0. destruct (timeoutId r) as [tid0|]; simpl; [|done].
    intros [? ?]%lookup_delete_Some. split; [done|congruence]. }
  destruct Htm as [[Htm _]|(path & Htm & _)]; rewrite Htm in Hti.
  - left. by apply Hsub.
  - apply lookup_insert_Some in Hti as [[<- <-]|[_ Hti]].
    + right. split; [done|]. by exists path.
    + left. by apply Hsub.
Qed.

Lemma handles_ok_step w e : Inv w → handles_ok w → handles_ok (step w e).
Proof.
  intros HI HH. pose proof HI as [Hr Ht].
  destruct e as [d t|rid o|tid|rid].
  - simpl. destruct (decide (pollKey d t ∈ activePolls w)) as [Hin|Hin].
    { by rewrite poll_registered. }
    rewrite poll_unregistered by done. intros rid r tid tm. simpl.
    intros [Hl|[_ Hl]]%lookup_app_Some Hid Hti; [by eapply HH|].
    destruct (rid - length (runs w)) as [|k]; simpl in Hl;
      [|by rewrite lookup_nil in Hl].
    by simplify_eq.
  - destruct (step_settle_cases w rid o HI)
      as [->|(r & r' & w' & Hl & Ha & -> & Haw & Hkey & Hreq & Hcase)]; [done|].
    assert (Hlen : rid < length (runs w)) by (by eapply lookup_lt_Some).
    intros rid0 r0 tid tm. simpl. intros Hl0 Hid Hti.
    destruct (decide (rid0 = rid)) as [->|Hne].
    + rewrite list_lookup_insert_eq in Hl0 by done. simplify_eq.
      destruct Hcase as [[_ He]|[_ (d & Htm & _ & _ & Hid' & _)]].
      * destruct (ends_timers _ _ _ _ _ _ He Hti) as [[_ Hn]|[-> _]].
        -- destruct He as (_ & Hid' & _). simpl in *. congruence.
        -- destruct He as (_ & Hid' & _). simpl in Hid'. rewrite Hid' in Hid.
           destruct (Hr _ _ Hl) as [_ _ _ _ Hh _]. specialize (Hh _ Hid). lia.
      * rewrite Hid' in Hid. simplify_eq. rewrite Htm, lookup_insert_eq in Hti.
        by simplify_eq.
    + rewrite list_lookup_insert_ne in Hl0 by done.
      destruct (Hr _ _ Hl0) as [_ _ _ _ Hh _]. specialize (Hh _ Hid).
      destruct Hcase as [[_ He]|[_ (d & Htm & _)]].
      * destruct (ends_timers _ _ _ _ _ _ He Hti) as [[Hti0 _]|[-> _]]; [|lia].
        by eapply HH.
      * rewrite Htm in Hti. rewrite lookup_insert_ne in Hti by lia. by eapply HH.
  - simpl. destruct (timers w !! tid) as [t|] eqn:Hti; [|done].
    destruct (callback_of t) as [rid|path] eqn:Hc.
    + unfold checkStatus. simpl. destruct (runs w !! rid) as [r|] eqn:Hl.
      * intros rid0 r0 tid0 tm. simpl.
        intros Hl0 Hid [_ Hti0]%lookup_delete_Some.
        destruct (decide (rid0 = rid)) as [->|Hne].
        -- rewrite list_lookup_insert_eq in Hl0 by (by eapply lookup_lt_Some).
           simplify_eq. by eapply HH.
        -- rewrite list_lookup_insert_ne in Hl0 by done. by eapply HH.
      * intros rid0 r0 tid0 tm. simpl.
        intros Hl0 Hid [_ Hti0]%lookup_delete_Some. by eapply HH.
    + intros rid0 r0 tid0 tm. simpl.
      intros Hl0 Hid [_ Hti0]%lookup_delete_Some. by eapply HH.
  - simpl. destruct (runs w !! rid) as [r|] eqn:Hl; [|done].
    intros rid0 r0 tid0 tm. rewrite cleanup_runs, cleanup_timers.
    intros Hl0 Hid Hti. eapply HH; [done|done|].
    destruct (timeoutId r); simpl in Hti; [|done].
    by apply lookup_delete_Some in Hti as [_ ?].
Qed.

Lemma handles_ok_reachable es : handles_ok (exec initial es).
Proof.
  assert (∀ w, Inv w → handles_ok w → handles_ok (exec w es)) as Hgen.
  { induction es as [|e es IH]; intros w HI HH; [done|].
    simpl. apply IH; [by apply Inv_step|by apply handles_ok_step]. }
  apply Hgen; [apply Inv_initial|].
  intros rid r tid t Hl. simpl in Hl. by rewrite lookup_nil in Hl.
Qed.







(** *** Runs that have stopped *)

(** No event changes a run that has stopped, or starts it again. *)
Lemma stopped_step w e rid r :
  Inv w → runs w !! rid = Some r → ¬ alive w rid →
  runs (step w e) !! rid = Some r ∧ ¬ alive (step w e) rid.
Proof.
  intros HI Hl Hd.
  assert (Haw : ¬ (0 < awaiting r)%Z).
  { intros ?. apply Hd. left. by exists r. }
  assert (Hns : ∀ tid d,
            timers w !! tid ≠ Some {| callback_of := CheckStatus rid; delay_of := d |}).
  { intros tid d Hti. apply Hd. right. by exists tid, d. }
  assert (Hcrit : ∀ w', runs w' !! rid = Some r →
            (∀ tid d,
               timers w' !! tid = Some {| callback_of := CheckStatus rid; delay_of := d |} →
               timers w !! tid = Some {| callback_of := CheckStatus rid; delay_of := d |}) →
            runs w' !! rid = Some r ∧ ¬ alive w' rid).
  { intros w' Hl' Hsub. split; [done|].
    intros [(r0 & Hl0 & Ha0)|(tid & d & Hti)].
    - by simplify_eq.
    - eapply Hns. by apply Hsub. }
  destruct e as [d t|rid0 o|tid|rid0].
  - simpl. destruct (decide (pollKey d t ∈ activePolls w)) as [Hin|Hin].
    { rewrite poll_registered by done. by apply Hcrit. }
    rewrite poll_unregistered by done.
    apply Hcrit; simpl; [by apply lookup_app_l_Some|done].
  - destruct (step_settle_cases w rid0 o HI)
      as [->|(r0 & r' & w' & Hl0 & Ha & -> & _ & _ & _ & Hcase)];
      [by apply Hcrit|].
    assert (rid ≠ rid0) by (intros ->; by simplify_eq).
    apply Hcrit; simpl; [by rewrite list_lookup_insert_ne|].
    intros tid d Hti. destruct Hcase as [[_ He]|[_ (d' & Htm & _)]].
    + by destruct (ends_timers _ _ _ _ _ _ He Hti) as [[? _]|[_ (path & [=])]].
    + rewrite Htm in Hti.
      apply lookup_insert_Some in Hti as [[_ [=]]|[_ ?]]; [congruence|done].
  - simpl. destruct (timers w !! tid) as [t|] eqn:Hti; [|by apply Hcrit].
    destruct (callback_of t) as [rid0|path] eqn:Hc.
    + assert (rid ≠ rid0).
      { intros ->. apply (Hns tid (delay_of t)). rewrite Hti.
        destruct t. simpl in *. by subst. }
      unfold checkStatus. simpl.
      destruct (runs w !! rid0) as [r0|]; apply Hcrit; simpl;
        rewrite ?list_lookup_insert_ne by done; try done;
        by intros ? ? [_ ?]%lookup_delete_Some.
    + apply Hcrit; simpl; [done|]. by intros ? ? [_ ?]%lookup_delete_Some.
  - simpl. destruct (runs w !! rid0) as [r0|]; [|by apply Hcrit].
    apply Hcrit; [by rewrite cleanup_runs|].
    intros tid d. rewrite cleanup_timers.
    destruct (timeoutId r0); simpl; [|done]. by intros [_ ?]%lookup_delete_Some.
Qed.

Lemma stopped_exec es : ∀ w rid r,
  Inv w → runs w !! rid = Some r → ¬ alive w rid →
  runs (exec w es) !! rid = Some r ∧ ¬ alive (exec w es) rid.
Proof.
  induction es as [|e es IH]; intros w rid r HI Hl Hd; [done|].
  simpl. destruct (stopped_step w e rid r HI Hl Hd) as [Hl' Hd'].
  apply IH; [by apply Inv_step|done|done].
Qed.

(** X2.  A run that has stopped, with no request in flight and no timer
    pending, is never touched again: whatever events follow, its variables
    stay as they are (so it sends no further request) and it does not come
    back to life. *)
Theorem stopped_run_stays_stopped (es es' : list event) (rid : nat) (r : run) :
  runs (exec initial es) !! rid = Some r →
  ¬ alive (exec initial es) rid →
  runs (exec initial (es ++ es')) !! rid = Some r ∧
  ¬ alive (exec initial (es ++ es')) rid.
Proof.
  intros Hl Hd. unfold exec. rewrite foldl_app.
  apply stopped_exec; [apply Inv_reachable|done|done].
Qed.

Lemma stopped_run_stays_stopped_witness :
  runs (exec initial
          ([Call "doc" "task";
            Settle 0 (Resolved (Some {| processing_status := Some "failed" |}))]
           ++ [Call "doc" "task"; Settle 0 (Rejected (Some 429%Z)); Fire 1; Cancel 0]))
    !! 0
  = Some {| documentId := "doc"; taskId := "task"; attempts := 0;
            currentDelay := 5000; timeoutId := None; awaiting := 0;
            requests := 1 |}.
Proof.
  apply (stopped_run_stays_stopped
           [Call "doc" "task";
            Settle 0 (Resolved (Some {| processing_status := Some "failed" |}))]
           [Call "doc" "task"; Settle 0 (Rejected (Some 429%Z)); Fire 1; Cancel 0]
           0).
  - vm_compute. reflexivity.
  - intros [(r0 & Hl0 & Ha0)|(tid & d & Hti)].
    + vm_compute in Hl0. injection Hl0 as <-. vm_compute in Ha0. discriminate.
    + assert (timers (exec initial
                [Call "doc" "task";
                 Settle 0 (Resolved (Some {| processing_status := Some "failed" |}))])
              = ∅) as Hnone by (vm_compute; reflexivity).
      rewrite Hnone in Hti. by rewrite lookup_empty in Hti.
Defined.

(** X3.  Cancelling a poll while it waits between two requests stops it
    for good: the key is given up, and whatever events follow, the run
    sends no further request and stays stopped. *)
Theorem cancel_between_requests (es es' : list event) (rid : nat) (r : run) :
  runs (exec initial es) !! rid = Some r →
  sleeping (exec initial es) rid →
  (key_of r ∉ activePolls (step (exec initial es) (Cancel rid))) ∧
  runs (exec initial (es ++ Cancel rid :: es')) !! rid = Some r ∧
  ¬ alive (exec initial (es ++ Cancel rid :: es')) rid.
Proof.
  intros Hl (tid & d & Hti).
  pose proof (Inv_reachable es) as HI. pose proof HI as [Hr Ht].
  set (w := exec initial es) in *.
  destruct (Ht _ _ Hti) as [_ Ho].
  destruct (Ho rid eq_refl) as (r0 & Hl0 & Hid & Haw & _). simplify_eq.
  assert (Hstep : step w (Cancel rid) = cleanup r w) by (simpl; by rewrite Hl).
  split.
  { rewrite Hstep, cleanup_activePolls. apply not_elem_of_difference. right.
    by apply elem_of_singleton. }
  assert (Hgoal : exec initial (es ++ Cancel rid :: es') = exec (step w (Cancel rid)) es').
  { unfold exec, w. by rewrite foldl_app. }
  rewrite Hgoal.
  apply stopped_exec; [by apply Inv_step| |]; rewrite Hstep.
  - by rewrite cleanup_runs.
  - intros [(r1 & Hl1 & Ha1)|(tid1 & d1 & Hti1)].
    + rewrite cleanup_runs in Hl1. simplify_eq. lia.
    + rewrite cleanup_timers, Hid in Hti1. simpl in Hti1.
      apply lookup_delete_Some in Hti1 as [Hne Hti1].
      destruct (Ht _ _ Hti1) as [_ Ho1].
      destruct (Ho1 rid eq_refl) as (r1 & Hl1 & Hid1 & _). simplify_eq.
Qed.

Lemma cancel_between_requests_witness :
  ¬ alive (exec initial
             ([Call "doc" "task";
               Settle 0 (Resolved (Some {| processing_status := Some "processing" |}))]
              ++ Cancel 0 :: [Fire 1; Call "doc" "task"])) 0.
Proof.
  apply (cancel_between_requests
           [Call "doc" "task";
            Settle 0 (Resolved (Some {| processing_status := Some "processing" |}))]
           [Fire 1; Call "doc" "task"] 0
           {| documentId := "doc"; taskId := "task"; attempts := 1;
              currentDelay := 5000; timeoutId := Some 1; awaiting := 0;
              requests := 1 |}).
  - vm_compute. reflexivity.
  - exists 1, 5000%Q. vm_compute. reflexivity.
Defined.

(** *** Navigation *)

(** What [checkStatus] does to the document of its run and to the
    navigations that are pending. *)
Lemma checkStatus_settle_visits rid o r w r' w' :
  checkStatus_settle rid o r w = (r', w') →
  documentId r' = documentId r ∧ taskId r' = taskId r ∧
  location w' = location w ∧
  ∀ tid t path, timers w' !! tid = Some t → callback_of t = Navigate path →
    timers w !! tid = Some t
    ∨ path = reviewPath (documentId r) ∧ delay_of t = 1500%Q.
Proof.
  assert (Hcl : ∀ r0 w0 tid t, timers (cleanup r0 w0) !! tid = Some t →
                               timers w0 !! tid = Some t).
  { intros r0 w0 tid t. rewrite cleanup_timers.
    destruct (timeoutId r0); simpl; [|done]. by intros [_ ?]%lookup_delete_Some. }
  assert (Hloc : ∀ r0 w0, location (cleanup r0 w0) = location w0).
  { intros r0 w0. unfold cleanup. by destruct (timeoutId r0). }
  unfold checkStatus_settle, caught, again, setTimeout.
  destruct o as [[st|]|status]; simpl;
    repeat case_bool_decide; simpl;
    repeat match goal with
           | |- context [(?a <? ?b)%Z] => destruct (Z.ltb_spec a b); simpl
           end;
    intros [= <- <-]; simpl; rewrite ?Hloc; simpl;
    (split; [done|split; [done|split; [done|]]]);
    intros tid t path Hti Hc; simpl in Hti;
    try (apply lookup_insert_Some in Hti as [[<- <-]|[_ Hti]];
         [simpl in Hc; simplify_eq; try (by right)|]);
    try apply Hcl in Hti; simpl in Hti; by left.
Qed.

(** Every event keeps the runs there are, with their identifiers. *)
Lemma step_keeps_documents w e rid r :
  runs w !! rid = Some r →
  ∃ r', runs (step w e) !! rid = Some r' ∧
        documentId r' = documentId r ∧ taskId r' = taskId r.
Proof.
  intros Hl. assert (Hlen : rid < length (runs w)) by (by eapply lookup_lt_Some).
  destruct e as [d t|rid0 o|tid|rid0].
  - simpl. destruct (decide (pollKey d t ∈ activePolls w)) as [Hin|Hin].
    { rewrite poll_registered by done. by exists r. }
    rewrite poll_unregistered by done. exists r. simpl.
    split; [by apply lookup_app_l_Some|done].
  - simpl. destruct (runs w !! rid0) as [r0|] eqn:Hl0; [|by exists r].
    destruct (0 <? awaiting r0)%Z; [|by exists r].
    destruct (checkStatus_settle rid0 o (settled r0) w) as [r' w'] eqn:Hs.
    destruct (checkStatus_settle_shape _ _ _ _ _ _ Hs) as (Hruns & _).
    destruct (checkStatus_settle_visits _ _ _ _ _ _ Hs) as (Hd & Ht & _).
    simpl. rewrite Hruns. destruct (decide (rid = rid0)) as [->|Hne].
    + exists r'. rewrite list_lookup_insert_eq by done. by simplify_eq.
    + exists r. by rewrite list_lookup_insert_ne.
  - simpl. destruct (timers w !! tid) as [t|]; [|by exists r].
    destruct (callback_of t) as [rid0|path]; [|by exists r].
    unfold checkStatus. simpl. destruct (runs w !! rid0) as [r0|] eqn:Hl0; [|by exists r].
    simpl. destruct (decide (rid = rid0)) as [->|Hne].
    + exists (sent r0). rewrite list_lookup_insert_eq by done. by simplify_eq.
    + exists r. by rewrite list_lookup_insert_ne.
  - simpl. destruct (runs w !! rid0) as [r0|]; [|by exists r].
    exists r. by rewrite cleanup_runs.
Qed.

Lemma visits_ok_step w e : visits_ok w → visits_ok (step w e).
Proof.
  intros [Hloc Htm].
  assert (Hkeep : ∀ path,
            (∃ rid r, runs w !! rid = Some r ∧ path = reviewPath (documentId r)) →
            ∃ rid r, runs (step w e) !! rid = Some r ∧ path = reviewPath (documentId r)).
  { intros path (rid & r & Hl & ->).
    destruct (step_keeps_documents w e rid r Hl) as (r' & Hl' & Hd & _).
    exists rid, r'. by rewrite Hd. }
  assert (Hold : location (step w e) = location w →
            (∀ tid t path, timers (step w e) !! tid = Some t →
               callback_of t = Navigate path →
               timers w !! tid = Some t
               ∨ delay_of t = 1500%Q ∧
                 ∃ rid r, runs w !! rid = Some r ∧ path = reviewPath (documentId r)) →
            visits_ok (step w e)).
  { intros Hl Hsub. split.
    - intros path. rewrite Hl. intros Hin. by apply Hkeep, Hloc.
    - intros tid t path Hti Hc.
      destruct (Hsub _ _ _ Hti Hc) as [Hti0|[Hdl Hrun]].
      + destruct (Htm _ _ _ Hti0 Hc) as [? ?]. split; [done|]. by apply Hkeep.
      + split; [done|]. by apply Hkeep. }
  destruct e as [d t|rid0 o|tid|rid0].
  - apply Hold; simpl.
    + destruct (decide (pollKey d t ∈ activePolls w)) as [Hin|Hin].
      { by rewrite poll_registered. }
      by rewrite poll_unregistered.
    + intros tid tm path. destruct (decide (pollKey d t ∈ activePolls w)) as [Hin|Hin].
      { rewrite poll_registered by done. by left. }
      rewrite poll_unregistered by done. by left.
  - simpl. destruct (runs w !! rid0) as [r0|] eqn:Hl0; [|done].
    destruct (0 <? awaiting r0)%Z eqn:Ha; [|done].
    destruct (checkStatus_settle rid0 o (settled r0) w) as [r' w'] eqn:Hs.
    assert (step w (Settle rid0 o) = set_runs (<[rid0 := r']> (runs w')) w') as Hst.
    { simpl. by rewrite Hl0, Ha, Hs. }
    rewrite <- Hst.
    destruct (checkStatus_settle_visits _ _ _ _ _ _ Hs) as (_ & _ & Hl & Hnav).
    apply Hold; rewrite Hst; simpl; [done|].
    intros tid t path Hti Hc.
    destruct (Hnav _ _ _ Hti Hc) as [?|[-> ?]]; [by left|].
    right. split; [done|]. by exists rid0, r0.
  - destruct (timers w !! tid) as [t|] eqn:Hti; [|simpl; by rewrite Hti].
    destruct (callback_of t) as [rid0|path] eqn:Hc.
    + apply Hold; simpl; rewrite Hti, Hc.
      * unfold checkStatus. simpl. by destruct (runs w !! rid0).
      * intros tid0 tm path. unfold checkStatus. simpl.
        destruct (runs w !! rid0); simpl; intros [_ ?]%lookup_delete_Some; by left.
    + destruct (Htm _ _ _ Hti Hc) as [_ Hrun].
      simpl in Hkeep. rewrite Hti, Hc in Hkeep. simpl in Hkeep.
      split; simpl; rewrite Hti, Hc; simpl.
      * intros path'.
        intros [Hin|Hin]%elem_of_app.
        -- by apply (Hkeep path'), Hloc.
        -- apply list_elem_of_singleton in Hin as ->. by apply (Hkeep path).
      * intros tid0 tm path'. intros [_ Hti0]%lookup_delete_Some Hc0.
        destruct (Htm _ _ _ Hti0 Hc0) as [? ?]. split; [done|].
        by apply (Hkeep path').
  - apply Hold; simpl; destruct (runs w !! rid0) as [r0|]; try done.
    + unfold cleanup. by destruct (timeoutId r0).
    + intros tid tm path. rewrite cleanup_timers.
      destruct (timeoutId r0); simpl; [|by left].
      intros [_ ?]%lookup_delete_Some. by left.
    + intros tid tm path ?. by left.
Qed.

Lemma visits_ok_reachable es : visits_ok (exec initial es).
Proof.
  assert (∀ w, visits_ok w → visits_ok (exec w es)) as Hgen.
  { induction es as [|e es IH]; intros w Hv; [done|].
    simpl. by apply IH, visits_ok_step. }
  apply Hgen. split.
  - intros path Hin. simpl in Hin. by apply elem_of_nil in Hin.
  - intros tid t path Hti. simpl in Hti. by rewrite lookup_empty in Hti.
Qed.

(** X4.  The poller only ever navigates to the review page of a document
    it was asked to poll: that holds of every page it has visited and of
    every navigation that is pending, which is always set for 1500 ms.
    And a pending navigation cannot be called off: the [cleanup] of no run
    clears it. *)
Theorem navigation_after_completion (es : list event) :
  (∀ path, path ∈ location (exec initial es) →
     ∃ rid r, runs (exec initial es) !! rid = Some r ∧
              path = reviewPath (documentId r)) ∧
  (∀ tid t path,
     timers (exec initial es) !! tid = Some t → callback_of t = Navigate path →
     delay_of t = 1500%Q ∧
     (∃ rid r, runs (exec initial es) !! rid = Some r ∧
               path = reviewPath (documentId r)) ∧
     ∀ rid, timers (step (exec initial es) (Cancel rid)) !! tid = Some t).
Proof.
  destruct (visits_ok_reachable es) as [Hloc Htm]. split; [done|].
  intros tid t path Hti Hc. destruct (Htm _ _ _ Hti Hc) as [Hd Hrun].
  split; [done|]. split; [done|].
  intros rid. simpl. destruct (runs (exec initial es) !! rid) as [r|] eqn:Hl; [|done].
  rewrite cleanup_timers. destruct (timeoutId r) as [tid0|] eqn:Hid; simpl; [|done].
  rewrite lookup_delete_ne; [done|]. intros ->.
  pose proof (handles_ok_reachable es _ _ _ _ Hl Hid Hti) as Hown. congruence.
Qed.

Lemma navigation_after_completion_witness :
  timers (step (exec initial
                  [Call "doc" "task";
                   Settle 0 (Resolved (Some {| processing_status := Some "completed" |}))])
               (Cancel 0)) !! 1
  = Some {| callback_of := Navigate "/document/doc/review"; delay_of := 1500 |}.
Proof.
  destruct (navigation_after_completion
              [Call "doc" "task";
               Settle 0 (Resolved (Some {| processing_status := Some "completed" |}))])
    as (_ & H).
  destruct (H 1 {| callback_of := Navigate "/document/doc/review"; delay_of := 1500 |}
              "/document/doc/review") as (_ & _ & H');
    [vm_compute; reflexivity | reflexivity |].
  apply H'.
Defined.

(** *** The key of a poll *)

Lemma pollKey_cons c d t : pollKey (String c d) t = String c (pollKey d t).
Proof. done. Qed.

Lemma pollKey_nil t : pollKey "" t = String (Ascii.ascii_of_nat 45) t.
Proof. done. Qed.

(** X5.  The key under which a poll is registered tells two polls apart
    whenever the document identifiers contain no hyphen.  With hyphens it
    need not: the key of [d-s] and [t] is the key of [d] and [s-t], and a
    call for the one while the other is registered is turned away without
    a request. *)
Theorem pollKey_injective :
  (∀ d1 t1 d2 t2,
     hyphen_free d1 = true → hyphen_free d2 = true →
     pollKey d1 t1 = pollKey d2 t2 → d1 = d2 ∧ t1 = t2) ∧
  (∀ d s t, pollKey (d +:+ "-" +:+ s) t = pollKey d (s +:+ "-" +:+ t)) ∧
  (∀ d s t w, pollKey (d +:+ "-" +:+ s) t ∈ activePolls w →
     pollProcessingStatus d (s +:+ "-" +:+ t) w = (None, w)).
Proof.
  assert (Hcol : ∀ d s t, pollKey (d +:+ "-" +:+ s) t = pollKey d (s +:+ "-" +:+ t)).
  { intros d s t. induction d as [|c d IH].
    - done.
    - change (String c d +:+ "-" +:+ s) with (String c (d +:+ "-" +:+ s)).
      rewrite !pollKey_cons. by rewrite IH. }
  split; [|split; [done|]].
  - intros d1. induction d1 as [|c1 d1 IH]; intros t1 [|c2 d2] t2 H1 H2 Heq.
    + rewrite !pollKey_nil in Heq. by injection Heq as ->.
    + rewrite pollKey_cons, pollKey_nil in Heq. injection Heq as <- _.
      vm_compute in H2. discriminate.
    + rewrite pollKey_cons, pollKey_nil in Heq. injection Heq as -> _.
      vm_compute in H1. discriminate.
    + rewrite !pollKey_cons in Heq. injection Heq as -> Heq.
      simpl in H1, H2. apply andb_prop in H1 as [_ H1]. apply andb_prop in H2 as [_ H2].
      destruct (IH _ _ _ H1 H2 Heq) as [-> ->]. done.
  - intros d s t w Hin. apply poll_registered. by rewrite <- Hcol.
Qed.

Lemma pollKey_injective_witness :
  "65f0c1" = "65f0c1" ∧ "b7e2-task" = "b7e2-task".
Proof.
  destruct pollKey_injective as (H & _).
  apply (H "65f0c1" "b7e2-task" "65f0c1" "b7e2-task"); reflexivity.
Defined.
End PollerLifeCycle.


(** ** The upload page *)

Section UploadPage.
Import Js ProcessingPoller FileUpload.

Lemma showsResult_spec h :
  showsResult h = true ↔ type (uploadResult (page h)) ≠ None.
Proof.
  unfold showsResult. rewrite bool_decide_eq_true.
  destruct (type (uploadResult (page h))); split; try done.
Qed.

Lemma handleUpload_settle_result o h :
  type (uploadResult (page (handleUpload_settle o h))) ≠ None.
Proof.
  unfold handleUpload_settle. destruct o as [res|]; [|done].
  destruct (FileUpload.status res =? 202)%Z, (processing_field res) as [proc|];
    simpl; try done.
  by rewrite pollProcessingStatus_uploadResult.
Qed.

(** X6.  The upload page shows exactly one of its three panels: the
    result alert, the drop zone, or the card of the selected file with the
    upload button.  Every reply to an upload brings up the result alert
    and ends the uploading state; a reset brings back the drop zone;
    dropping files selects the first of them and brings up the file card,
    and dropping none changes nothing.  Since the upload button is only
    there with a file selected, pressing it always does something: it
    sends the upload, or it brings up the alert. *)
Theorem upload_page_panels (h : hook) :
  (showsResult h = true ∧ showsDropzone h = false ∧ showsSelectedFile h = false
   ∨ showsResult h = false ∧ showsDropzone h = true ∧ showsSelectedFile h = false
   ∨ showsResult h = false ∧ showsDropzone h = false ∧ showsSelectedFile h = true) ∧
  (∀ o, showsResult (handleUpload_settle o h) = true ∧
        isUploading (handleUpload_settle o h) = false ∧
        uploadedFile (handleUpload_settle o h) = uploadedFile h) ∧
  showsDropzone (resetUpload h) = true ∧
  (∀ file files,
     showsSelectedFile (handleDrop (file :: files) h) = true ∧
     uploadedFile (handleDrop (file :: files) h) = Some file) ∧
  handleDrop [] h = h ∧
  (showsSelectedFile h = true →
     ∃ file, uploadedFile h = Some file ∧
       (posted (handleUpload h) = posted h ++ [file] ∧
        isUploading (handleUpload h) = true ∧ page (handleUpload h) = page h
        ∨ posted (handleUpload h) = posted h ∧ showsResult (handleUpload h) = true)).
Proof.
  split; [|split; [|split; [|split; [|split]]]].
  - unfold showsDropzone, showsSelectedFile.
    destruct (showsResult h), (uploadedFile h) as [file|]; simpl;
      [by left|by left|by right; right|by right; left].
  - intros o. split; [|split].
    + apply showsResult_spec, handleUpload_settle_result.
    + done.
    + unfold handleUpload_settle. destruct o as [res|]; [|done].
      by destruct (FileUpload.status res =? 202)%Z, (processing_field res).
  - done.
  - done.
  - done.
  - unfold showsSelectedFile. intros [Hfile Hres]%andb_prop.
    apply bool_decide_eq_true in Hfile as [file Hfile]. exists file. split; [done|].
    unfold handleUpload. rewrite Hfile.
    destruct (truthy (FileUpload.token h)); simpl; [by left|]. right. split; [done|].
    apply showsResult_spec. done.
Qed.

Lemma upload_page_panels_witness :
  ∃ file,
    uploadedFile (handleDrop [{| file_name := "lease.pdf" |}] idle_hook) = Some file ∧
    (posted (handleUpload (handleDrop [{| file_name := "lease.pdf" |}] idle_hook))
     = posted (handleDrop [{| file_name := "lease.pdf" |}] idle_hook) ++ [file] ∧
     isUploading (handleUpload (handleDrop [{| file_name := "lease.pdf" |}] idle_hook))
     = true ∧
     page (handleUpload (handleDrop [{| file_name := "lease.pdf" |}] idle_hook))
     = page (handleDrop [{| file_name := "lease.pdf" |}] idle_hook)
     ∨ posted (handleUpload (handleDrop [{| file_name := "lease.pdf" |}] idle_hook))
       = posted (handleDrop [{| file_name := "lease.pdf" |}] idle_hook) ∧
       showsResult (handleUpload (handleDrop [{| file_name := "lease.pdf" |}] idle_hook))
       = true).
Proof.
  destruct (upload_page_panels (handleDrop [{| file_name := "lease.pdf" |}] idle_hook))
    as (_ & _ & _ & _ & _ & H).
  apply H. vm_compute. reflexivity.
Defined.

(** X7.  [resetUpload] clears the file, the result and the status, but it
    does not stop a poll that is under way: the run, its timer and its
    key stay as they are.  So the reply to the status request reaches the
    page after the reset: when it reports "completed", the success result
    is set and the navigation to the review page is scheduled. *)
Theorem resetUpload_keeps_polling (h : hook) (rid : nat) (r : run) :
  runs (page h) !! rid = Some r → (0 < awaiting r)%Z →
  let h' := resetUpload h in
  let completed :=
    ProcessingPoller.Resolved (Some {| processing_status := Some "completed" |}) in
  showsDropzone h' = true ∧
  runs (page h') = runs (page h) ∧ timers (page h') = timers (page h) ∧
  activePolls (page h') = activePolls (page h) ∧
  alive (page h') rid ∧
  uploadResult (step (page h') (Settle rid completed))
  = {| type := Some success; message := "AI analysis completed!" |} ∧
  timers (step (page h') (Settle rid completed)) !! nextTimer (page h)
  = Some {| callback_of := Navigate (reviewPath (documentId r)); delay_of := 1500 |}.
Proof.
  intros Hl Ha h' completed.
  assert (Hl' : runs (page h') !! rid = Some r) by done.
  split.
  { done. }
  split; [done|]. split; [done|]. split; [done|].
  split; [left; by exists r|].
  rewrite (step_settle _ _ completed _ Hl' Ha).
  unfold completed, checkStatus_settle. simpl.
  rewrite cleanup_uploadResult, cleanup_nextTimer. simpl.
  split; [done|]. by rewrite lookup_insert_eq.
Qed.

Lemma resetUpload_keeps_polling_witness :
  let h :=
    handleUpload_settle
      (FileUpload.Resolved
         {| FileUpload.status := 202;
            processing_field := Some {| task_id := Some "task" |};
            document_id := Some "doc" |})
      (handleUpload
         {| uploadedFile := Some {| file_name := "lease.pdf" |}; isUploading := false;
            FileUpload.token := Some "jwt"; posted := [];
            page := ProcessingPoller.initial |}) in
  uploadResult
    (step (page (resetUpload h))
       (Settle 0 (ProcessingPoller.Resolved
                    (Some {| processing_status := Some "completed" |}))))
  = {| type := Some success; message := "AI analysis completed!" |}.
Proof.
  intros h.
  destruct (resetUpload_keeps_polling h 0 (fresh_run "doc" "task"))
    as (_ & _ & _ & _ & _ & H & _);
    [vm_compute; reflexivity | vm_compute; reflexivity | apply H].
Defined.
End UploadPage.


(** ** Further properties of the utilities *)

Section UtilsMore.
Import Js QueueUtils.

Lemma or_truthy a b : truthy (or a b) = truthy a || truthy b.
Proof. unfold or. by destruct (truthy a) eqn:E; rewrite ?E. Qed.

Lemma truthy_default x s : truthy x = true → default s x ≠ "".
Proof.
  destruct x as [t|]; simpl; [|done].
  by destruct (String.eqb_spec t "").
Qed.

(** X8.  Without a token [fetchDocuments] makes no request and returns
    the empty list.  With a token, a resolved request gives one queue
    document for each document of the reply, in the same order, and shows
    no toast; a reply in neither of the two known shapes gives the empty
    list.  Each document has a name that is not empty, and an identifier
    that is truthy unless the reply has none for it. *)
Theorem fetchDocuments_success (token : value) (toasts : list toast) :
  (truthy token = false →
     ∀ r, fetchDocuments token r toasts = (Returned [], toasts)) ∧
  (truthy token = true →
     ∀ b, fetchDocuments token (Resolved b) toasts
          = (Returned (format <$> payload b), toasts) ∧
          length (format <$> payload b) = length (payload b) ∧
          ∀ i doc, payload b !! i = Some doc →
            (format <$> payload b) !! i = Some (format doc) ∧
            name (format doc) ≠ "" ∧
            (truthy (id (format doc)) = true ∨ id (format doc) = api__id doc)).
Proof.
  split; intros Htok; unfold fetchDocuments; rewrite Htok; simpl; [done|].
  intros b. split; [by destruct b|]. split; [by rewrite length_fmap|].
  intros i doc Hi. split; [by rewrite list_lookup_fmap, Hi|]. split.
  - simpl. apply truthy_default. rewrite or_truthy. simpl. by rewrite orb_true_r.
  - simpl. destruct (truthy (or (api_id doc) (api_document_id doc))) eqn:E.
    + left. by rewrite or_truthy, E.
    + right. unfold or at 1. by rewrite E.
Qed.

Lemma fetchDocuments_success_witness :
  fetchDocuments (Some "jwt") (Resolved Unexpected) [] = (Returned [], []).
Proof.
  destruct (fetchDocuments_success (Some "jwt") []) as (_ & H).
  destruct (H eq_refl Unexpected) as (H' & _). apply H'.
Defined.

Lemma lower_ascii_idem c : lower_ascii (lower_ascii c) = lower_ascii c.
Proof. by destruct c as [[] [] [] [] [] [] [] []]. Qed.

Lemma toLowerCase_idem s : toLowerCase (toLowerCase s) = toLowerCase s.
Proof. induction s as [|c s IH]; [done|]. simpl. by rewrite lower_ascii_idem, IH. Qed.

Lemma usage_mapper_range a :
  UsageStatsUtils.mapApiStatusToDisplayStatus a
  ∈ ["Completed"; "Processing"; "Failed"; "Uploaded"; "Other"].
Proof.
  unfold UsageStatsUtils.mapApiStatusToDisplayStatus.
  repeat match goal with
         | |- context [if case_of ?x ?l then _ else _] => destruct (case_of x l)
         end;
    rewrite !elem_of_cons; naive_solver.
Qed.

(** X9.  Neither mapper looks at the case of its input.  The four display
    statuses of the queue are fixed points of both mappers, and the mapper
    of [usagestatsUtils] maps each of its own answers, "Other" included,
    to itself. *)
Theorem status_mappers_fixed_points :
  (∀ a, QueueUtils.mapApiStatusToDisplayStatus (toLowerCase <$> a)
        = QueueUtils.mapApiStatusToDisplayStatus a ∧
        UsageStatsUtils.mapApiStatusToDisplayStatus (toLowerCase <$> a)
        = UsageStatsUtils.mapApiStatusToDisplayStatus a) ∧
  (∀ d, QueueUtils.mapApiStatusToDisplayStatus (Some (literal d)) = d ∧
        UsageStatsUtils.mapApiStatusToDisplayStatus (Some (literal d)) = literal d) ∧
  (∀ a, UsageStatsUtils.mapApiStatusToDisplayStatus
          (Some (UsageStatsUtils.mapApiStatusToDisplayStatus a))
        = UsageStatsUtils.mapApiStatusToDisplayStatus a).
Proof.
  split; [|split].
  - intros a.
    assert (toLowerCase <$> (toLowerCase <$> a) = toLowerCase <$> a) as Hidem.
    { destruct a as [s|]; simpl; [|done]. by rewrite toLowerCase_idem. }
    unfold QueueUtils.mapApiStatusToDisplayStatus,
      UsageStatsUtils.mapApiStatusToDisplayStatus.
    by rewrite Hidem.
  - by intros [].
  - intros a. pose proof (usage_mapper_range a) as Hr.
    repeat (apply elem_of_cons in Hr as [->|Hr]; [done|]).
    by apply elem_of_nil in Hr.
Qed.

(** X10.  The two mappers give the same display status exactly on the
    inputs that lower-case to one of the case labels of [queueUtils]. *)
Theorem status_mappers_agree (a : value) :
  literal (QueueUtils.mapApiStatusToDisplayStatus a)
  = UsageStatsUtils.mapApiStatusToDisplayStatus a
  ↔ case_of (toLowerCase <$> a) queue_labels = true.
Proof.
  destruct a as [str|]; [|by vm_compute].
  unfold QueueUtils.mapApiStatusToDisplayStatus,
    UsageStatsUtils.mapApiStatusToDisplayStatus, queue_labels.
  simpl. generalize (toLowerCase str). intros s.
  repeat match goal with
         | |- context [String.eqb s ?l] =>
             destruct (String.eqb_spec s l) as [->|?]; [by vm_compute|]
         end.
  by vm_compute.
Qed.
End UtilsMore.
